(** * rabbit_force: configuration schemas and object factories

    A shallow embedding of [rabbit_force/config_schema.py] and
    [rabbit_force/factories.py], with the properties of the specification
    proved about it.

    Python values are modelled as follows.
    - A [dict] with string keys whose order is irrelevant to the code that
      reads it (the mappings handed to the schema validators) is a
      [gmap string _]; [set(d)] and [d.keys()] are [dom d], [len(d)] is
      [size d].
    - A [dict] that is iterated ([org_specs]) is an association list in
      insertion order.
    - A [float] is a binary64 [PrimFloat.float], compared with the IEEE
      comparisons of [PrimFloat].
    - A [str] is a [string]; one character of the model stands for one
      code point, so [len] is [String.length]. *)

From Stdlib Require Import Floats.
From stdpp Require Import gmap strings list fin_maps.

(* set_solver clears hypotheses that its own substitutions already removed *)
Set Warnings "-clear-no-such-hyp".

Local Open Scope string_scope.
Local Open Scope list_scope.
Local Open Scope stdpp_scope.

(** ** Configuration values *)

#[warnings="-register-all"]
Inductive value :=
  | VNone
  | VBool (b : bool)
  | VInt (z : Z)
  | VFloat (f : float)
  | VStr (s : string)
  | VList (l : list value)
  | VDict (d : gmap string value).

(** ** Exceptions *)

(** [marshmallow.ValidationError(message, field_names)]. *)
Record ValidationError := mkValidationError {
  message : string;
  field_names : list string
}.

(** What a schema-level validator can raise.  [TypeError] is what Python
    raises when an ordering comparison is applied to operands that have
    none. *)
Inductive exn :=
  | ValidationErr (e : ValidationError)
  | TypeError.

(** ** The part of marshmallow the schemas rely on *)

(** [marshmallow.validate]: a validator maps the deserialised value to
    [true] when it passes. *)
Module validate.

(** Python's [len]; [None] where the value has no length. *)
Definition len (v : value) : option nat :=
  match v with
  | VStr s => Some (String.length s)
  | VList l => Some (length l)
  | VDict d => Some (size d)
  | _ => None
  end.

Definition above (min : option nat) (n : nat) : bool :=
  match min with Some lo => bool_decide (lo ≤ n)%nat | None => true end.

Definition below (max : option nat) (n : nat) : bool :=
  match max with Some hi => bool_decide (n ≤ hi)%nat | None => true end.

(** [Length(min=, max=)].  It is only attached to string, list and dict
    fields, whose values all have a length; a value without one fails. *)
Definition Length (min max : option nat) (v : value) : bool :=
  match len v with
  | Some n => above min n && below max n
  | None => false
  end.

(** [Range(min=, max=)] on a float: the value is refused when
    [value < min] or [value > max]. *)
Definition Range (min max : float) (v : value) : bool :=
  match v with
  | VFloat f => negb (PrimFloat.ltb f min) && negb (PrimFloat.ltb max f)
  | _ => false
  end.

(** [OneOf(choices)] with string choices. *)
Definition OneOf (choices : list string) (v : value) : bool :=
  match v with
  | VStr s => bool_decide (s ∈ choices)
  | _ => false
  end.

End validate.

(** A declared field: the field class's own conversion ([None] when the
    raw value is not valid for the class), the [validate=] validators, and
    the [required=], [allow_none=] and [attribute=] options.  The
    [default=] option only affects serialisation and is left out. *)
Record field := mkField {
  deserialize : value → option value;
  validators : list (value → bool);
  required : bool;
  allow_none : bool;
  attribute : option string
}.

Definition with_validate (v : value → bool) (f : field) : field :=
  mkField (deserialize f) (validators f ++ [v]) (required f) (allow_none f)
          (attribute f).

Definition with_required (f : field) : field :=
  mkField (deserialize f) (validators f) true (allow_none f) (attribute f).

Definition with_allow_none (f : field) : field :=
  mkField (deserialize f) (validators f) (required f) true (attribute f).

Definition with_attribute (a : string) (f : field) : field :=
  mkField (deserialize f) (validators f) (required f) (allow_none f) (Some a).

(** Why a field is refused: it is required and missing, it is null and
    [allow_none] is off, the field class cannot convert it, or one of its
    validators fails. *)
Inductive field_error :=
  | Missing_required
  | Null
  | Invalid
  | Failed_validation.

Inductive loaded :=
  | Absent
  | Value (v : value)
  | Error (e : field_error).

(** [Field.deserialize] on the raw value found under the field's name
    ([None] when the key is missing). *)
Definition deserialize_field (f : field) (raw : option value) : loaded :=
  match raw with
  | None => if required f then Error Missing_required else Absent
  | Some VNone => if allow_none f then Value VNone else Error Null
  | Some v =>
    match deserialize f v with
    | Some v' =>
      if forallb (λ p, p v') (validators f) then Value v'
      else Error Failed_validation
    | None => Error Invalid
    end
  end.

(** [marshmallow.fields]. *)
Module fields.

(** [fields.String()]: only a string is a valid string. *)
Definition String : field :=
  mkField (λ v, match v with VStr s => Some (VStr s) | _ => None end)
          [] false false None.

(** [fields.Float()]: the raw value is converted with Python's [float],
    given as [py_float], whose [None] stands for the values the field
    refuses as invalid; the result is always a float. *)
Definition Float (py_float : value → option float) : field :=
  mkField (λ v, VFloat <$> py_float v) [] false false None.

(** [fields.Boolean()]: the raw value is looked up in marshmallow's
    tables of truthy and falsy values, given as [py_bool]. *)
Definition Boolean (py_bool : value → option bool) : field :=
  mkField (λ v, VBool <$> py_bool v) [] false false None.

(** The value of one entry of a [fields.Dict]: converted and validated
    by the [values=] field. *)
Definition entry (f : field) (v : value) : option value :=
  match deserialize_field f (Some v) with
  | Value v' => Some v'
  | _ => None
  end.

(** [fields.Dict(keys=, values=)]: the raw value must be a mapping and
    every value must be accepted by [values].  The keys of a mapping of
    the model are strings already, which is what [keys=fields.String()]
    asks for. *)
Definition Dict (values : option field) : field :=
  mkField (λ v, match v with
                | VDict d =>
                  match values with
                  | Some f =>
                    if bool_decide (map_Forall (λ _ x, is_Some (entry f x)) d)
                    then Some (VDict (omap (entry f) d))
                    else None
                  | None => Some (VDict d)
                  end
                | _ => None
                end)
          [] false false None.

End fields.

(** ** Schemas *)

(** A schema-level validator ([@validates_schema]) receives the names of
    the declared fields ([self.fields]), the deserialised [data] and, with
    [pass_original=True], the [original_data]; it returns [None] when it
    returns normally and the exception otherwise. *)
Definition schema_validator : Type :=
  gset string → gmap string value → gmap string value → option exn.

(** A validator declared without [pass_original]. *)
Definition validates_schema (check : gmap string value → option exn)
  : schema_validator := λ _ data _, check data.

Record Schema := mkSchema {
  declared : list (string * field);
  schema_validators : list schema_validator
}.

(** [set(self.fields)]. *)
Definition field_set (s : Schema) : gset string := list_to_set (declared s).*1.

Inductive error :=
  | FieldError (name : string) (e : field_error)
  | SchemaError (e : ValidationError).

(** One step of the unmarshalling loop: the field [name] of the input is
    deserialised and stored under its attribute, or its error recorded. *)
Definition unmarshal_field (original_data : gmap string value)
    (acc : gmap string value * list error) (decl : string * field)
  : gmap string value * list error :=
  match deserialize_field decl.2 (original_data !! decl.1) with
  | Absent => acc
  | Value v => (<[default decl.1 (attribute decl.2) := v]> acc.1, acc.2)
  | Error e => (acc.1, acc.2 ++ [FieldError decl.1 e])
  end.

Definition unmarshal (s : Schema) (original_data : gmap string value)
  : gmap string value * list error :=
  foldl (unmarshal_field original_data) (∅, []) (declared s).

(** The schema-level validators are run in turn on the unmarshalled data;
    their validation errors are collected, another exception propagates
    ([None]). *)
Fixpoint invoke_validators (vs : list schema_validator) (self : gset string)
    (data original_data : gmap string value) : option (list error) :=
  match vs with
  | [] => Some []
  | v :: vs' =>
    match v self data original_data with
    | Some TypeError => None
    | Some (ValidationErr e) =>
      cons (SchemaError e) <$> invoke_validators vs' self data original_data
    | None => invoke_validators vs' self data original_data
    end
  end.

Inductive load_result :=
  | Loaded (data : gmap string value)
  | Rejected (errors : list error)
  | Crashed.

(** [Schema.load]: the fields are unmarshalled first.  When a field was
    refused, its errors are reported and the schema-level validators are
    skipped (marshmallow's [skip_on_field_errors], which no validator of
    the source turns off); otherwise the validators run on the
    unmarshalled data, and the input is accepted when none of them
    reported an error. *)
Definition load (s : Schema) (original_data : gmap string value) : load_result :=
  let r := unmarshal s original_data in
  match r.2 with
  | [] =>
    match invoke_validators (schema_validators s) (field_set s) r.1 original_data with
    | None => Crashed
    | Some [] => Loaded r.1
    | Some verrs => Rejected verrs
    end
  | errs => Rejected errs
  end.

(** *** StrictSchema *)

(** [StrictSchema.check_unknown_fields]. *)
Definition check_unknown_fields (self : gset string)
    (data original_data : gmap string value) : option exn :=
  let unknown_fields := dom original_data ∖ self in
  if bool_decide (unknown_fields ≠ ∅)
  then Some (ValidationErr
               (mkValidationError "Unknown field" (elements unknown_fields)))
  else None.

(** A schema class derived from [StrictSchema]: its own fields and
    validators, and the inherited [check_unknown_fields].  The order in
    which the validators are invoked only decides the order of the
    reported errors. *)
Definition StrictSchema (declared : list (string * field))
    (own : list schema_validator) : Schema :=
  mkSchema declared (check_unknown_fields :: own).

(** *** PushTopicSchema *)

Module PushTopicSchema.

Definition fields (py_float : value → option float)
    (py_bool : value → option bool) : list (string * field) :=
  [ ("Id", with_validate (validate.Length (Some 1) None) fields.String);
    ("Name", with_validate (validate.Length (Some 1) (Some 25)) fields.String);
    ("ApiVersion",
     with_validate (validate.Range 20.0 42.0) (fields.Float py_float));
    ("IsActive", fields.Boolean py_bool);
    ("NotifyForFields",
     with_validate (validate.OneOf ["All"; "Referenced"; "Select"; "Where"])
                   fields.String);
    ("Description", with_validate (validate.Length None (Some 400)) fields.String);
    ("NotifyForOperationCreate", fields.Boolean py_bool);
    ("NotifyForOperationUpdate", fields.Boolean py_bool);
    ("NotifyForOperationDelete", fields.Boolean py_bool);
    ("NotifyForOperationUndelete", fields.Boolean py_bool);
    ("NotifyForOperations",
     with_validate (validate.OneOf ["All"; "Create"; "Extended"; "Update"])
                   fields.String);
    ("Query", with_validate (validate.Length (Some 1) (Some 1300)) fields.String) ].

Definition unique_id_fields : gset string := {[ "Id"; "Name" ]}.
Definition required_fields : gset string := {[ "Name"; "ApiVersion"; "Query" ]}.

Definition single_field_error : ValidationError :=
  mkValidationError
    "If only a single field is specified it should be a unique identifier like 'Id' or 'Name'."
    [].

Definition full_definition_error : ValidationError :=
  mkValidationError
    "If multiple fields are specified it it should be a full resource definition where at least 'Name', 'ApiVersion' and 'Query' are required."
    [].

Definition no_field_error : ValidationError :=
  mkValidationError
    "Either a single fields should be specified which uniquely identifies the resource or multiple fields which can be used to construct the resource."
    [].

(** [PushTopicSchema.check_required_fileds]. *)
Definition check_required_fileds (data : gmap string value) : option exn :=
  if bool_decide (size data = 1)%nat then
    if bool_decide (dom data ∩ unique_id_fields = ∅)
    then Some (ValidationErr single_field_error)
    else None
  else if bool_decide (1 < size data)%nat then
    if bool_decide (dom data ∩ required_fields ≠ required_fields)
    then Some (ValidationErr full_definition_error)
    else None
  else Some (ValidationErr no_field_error).

Definition old_field_error : ValidationError :=
  mkValidationError
    "'NotifyForOperations' can only be specified for API version 28.0 and earlier."
    [].

Definition new_fields_error : ValidationError :=
  mkValidationError
    "'NotifyForOperationCreate', 'NotifyForOperationDelete', 'NotifyForOperationUndelete' and 'NotifyForOperationUpdate' can only be specified for API version 29.0 and later."
    [].

(** [key in data]. *)
Definition has (key : string) (data : gmap string value) : bool :=
  bool_decide (key ∈ dom data).

(** [x >= c] and [x <= c] for a constant [c] that is a whole number, given
    as the float [cf] and as the integer [cz]: Python compares a float
    with the IEEE comparison and an [int] or a [bool] (0 or 1) by value;
    on a value of any other kind the comparison raises [TypeError]
    ([None]). *)
Definition ge_const (x : value) (cf : float) (cz : Z) : option bool :=
  match x with
  | VFloat v => Some (PrimFloat.leb cf v)
  | VInt z => Some (cz <=? z)%Z
  | VBool b => Some (cz <=? Z.b2z b)%Z
  | _ => None
  end.

Definition le_const (x : value) (cf : float) (cz : Z) : option bool :=
  match x with
  | VFloat v => Some (PrimFloat.leb v cf)
  | VInt z => Some (z <=? cz)%Z
  | VBool b => Some (Z.b2z b <=? cz)%Z
  | _ => None
  end.

(** [PushTopicSchema.check_api_version]. *)
Definition check_api_version (data : gmap string value) : option exn :=
  match data !! "ApiVersion" with
  | None => None
  | Some x =>
    match ge_const x 29.0 29, le_const x 28.0 28 with
    | Some ge, Some le =>
      if ge && has "NotifyForOperations" data
      then Some (ValidationErr old_field_error)
      else if le
              && (has "NotifyForOperationCreate" data
                  || has "NotifyForOperationDelete" data
                  || has "NotifyForOperationUndelete" data
                  || has "NotifyForOperationUpdate" data)
      then Some (ValidationErr new_fields_error)
      else None
    | _, _ => Some TypeError
    end
  end.

Definition schema (py_float : value → option float)
    (py_bool : value → option bool) : Schema :=
  StrictSchema (fields py_float py_bool)
               [ validates_schema check_required_fileds;
                 validates_schema check_api_version ].

End PushTopicSchema.

(** The four notification fields of API version 29.0 and later. *)
Definition new_fields : list string :=
  [ "NotifyForOperationCreate"; "NotifyForOperationUpdate";
    "NotifyForOperationDelete"; "NotifyForOperationUndelete" ].

(** *** StreamingChannelSchema *)

Module StreamingChannelSchema.

Definition fields : list (string * field) :=
  [ ("Id", with_validate (validate.Length (Some 1) None) fields.String);
    ("Name", with_validate (validate.Length (Some 1) (Some 80)) fields.String);
    ("Description", with_validate (validate.Length None (Some 255)) fields.String) ].

Definition unique_id_fields : gset string := {[ "Id"; "Name" ]}.

(** [StreamingChannelSchema.check_required_fileds]. *)
Definition check_required_fileds (data : gmap string value) : option exn :=
  if bool_decide (size data = 1)%nat then
    if bool_decide (dom data ∩ unique_id_fields = ∅)
    then Some (ValidationErr PushTopicSchema.single_field_error)
    else None
  else if bool_decide (data = ∅) then
    Some (ValidationErr PushTopicSchema.no_field_error)
  else None.

Definition schema : Schema :=
  StrictSchema fields [ validates_schema check_required_fileds ].

End StreamingChannelSchema.

(** *** RouteSchema *)

Module RouteSchema.

Definition fields : list (string * field) :=
  [ ("broker_name",
     with_validate (validate.Length (Some 1) None) (with_required fields.String));
    ("exchange_name", with_required fields.String);
    ("routing_key",
     with_validate (validate.Length (Some 1) None) (with_required fields.String));
    ("properties", with_allow_none (fields.Dict (Some fields.String))) ].

Definition schema : Schema := StrictSchema fields [].

End RouteSchema.

(** *** Nested and list fields *)

(** [fields.Nested(schema)]: the raw value must be a mapping that the
    nested schema loads; the field's value is the loaded data. *)
Definition Nested (s : Schema) : field :=
  mkField (λ v, match v with
                | VDict d =>
                  match load s d with
                  | Loaded data => Some (VDict data)
                  | _ => None
                  end
                | _ => None
                end)
          [] false false None.

(** [fields.List(inner)]: the raw value must be a list whose items are
    all accepted by [inner]. *)
Definition List (inner : field) : field :=
  mkField (λ v, match v with
                | VList l => VList <$> mapM (fields.entry inner) l
                | _ => None
                end)
          [] false false None.

(** *** RoutingRuleSchema *)

Module RoutingRuleSchema.

Definition fields : list (string * field) :=
  [ ("condition",
     with_attribute "condition_spec"
       (with_validate (validate.Length (Some 1) None) (with_required fields.String)));
    ("route",
     with_attribute "route_spec" (with_required (Nested RouteSchema.schema))) ].

Definition schema : Schema := StrictSchema fields [].

End RoutingRuleSchema.

(** *** MessageRouterSchema *)

Module MessageRouterSchema.

Definition fields : list (string * field) :=
  [ ("default_route",
     with_attribute "default_route_spec"
       (with_allow_none (with_required (Nested RouteSchema.schema))));
    ("rules",
     with_attribute "rule_specs" (List (Nested RoutingRuleSchema.schema))) ].

Definition schema : Schema := StrictSchema fields [].

End MessageRouterSchema.

(** *** AmqpExchangeSchema *)

Module AmqpExchangeSchema.

Definition fields (py_bool : value → option bool) : list (string * field) :=
  [ ("exchange_name",
     with_validate (validate.Length (Some 1) None) (with_required fields.String));
    ("type_name",
     with_validate (validate.OneOf ["fanout"; "direct"; "topic"; "headers"])
                   (with_required fields.String));
    ("passive", fields.Boolean py_bool);
    ("durable", fields.Boolean py_bool);
    ("auto_delete", fields.Boolean py_bool);
    ("no_wait", fields.Boolean py_bool);
    ("arguments", with_allow_none (fields.Dict None)) ].

Definition schema (py_bool : value → option bool) : Schema :=
  StrictSchema (fields py_bool) [].

End AmqpExchangeSchema.

(** *** AmqpBrokerSchema and MessageSinkSchema *)

(** [Range(min=, max=)] on an integer. *)
Definition Range_int (min max : Z) (v : value) : bool :=
  match v with
  | VInt z => negb (z <? min)%Z && negb (max <? z)%Z
  | _ => false
  end.

(** [fields.Int()]: the raw value is converted with Python's [int], given
    as [py_int]; the result is always an integer. *)
Definition Int (py_int : value → option Z) : field :=
  mkField (λ v, VInt <$> py_int v) [] false false None.

Module AmqpBrokerSchema.

Definition fields (py_int : value → option Z) (py_bool : value → option bool)
  : list (string * field) :=
  [ ("host",
     with_validate (validate.Length (Some 1) None) (with_required fields.String));
    ("port",
     with_validate (Range_int 1 (2 ^ 16 - 1)) (with_allow_none (Int py_int)));
    ("login", fields.String);
    ("password", fields.String);
    ("virtualhost", fields.String);
    ("ssl", fields.Boolean py_bool);
    ("verify_ssl", fields.Boolean py_bool);
    ("login_method", fields.String);
    ("insist", fields.Boolean py_bool);
    ("exchanges",
     with_attribute "exchange_specs"
       (with_validate (validate.Length (Some 1) None)
          (with_required (List (Nested (AmqpExchangeSchema.schema py_bool)))))) ].

Definition schema (py_int : value → option Z) (py_bool : value → option bool)
  : Schema :=
  StrictSchema (fields py_int py_bool) [].

End AmqpBrokerSchema.

Module MessageSinkSchema.

Definition fields (py_int : value → option Z) (py_bool : value → option bool)
  : list (string * field) :=
  [ ("brokers",
     with_attribute "broker_specs"
       (with_validate (validate.Length (Some 1) None)
          (with_required
             (fields.Dict (Some (Nested (AmqpBrokerSchema.schema py_int py_bool))))))) ].

Definition schema (py_int : value → option Z) (py_bool : value → option bool)
  : Schema :=
  StrictSchema (fields py_int py_bool) [].

End MessageSinkSchema.

(** ** Factories *)

(** [aiosfstream.ReplayOption]. *)
Inductive ReplayOption := NEW_EVENTS | ALL_EVENTS.

(** A Python [dict] that is iterated: the items in insertion order. *)
Definition pydict (V : Type) : Type := list (string * V).

(** [d[key] = v]: an existing key keeps its position. *)
Fixpoint setitem {V} (key : string) (v : V) (d : pydict V) : pydict V :=
  match d with
  | [] => [(key, v)]
  | (k, x) :: d' =>
    if bool_decide (k = key) then (k, v) :: d' else (k, x) :: setitem key v d'
  end.

(** Truth value of an optional [dict]: [None] and [{}] are false. *)
Definition truthy (spec : option (gmap string value)) : bool :=
  match spec with
  | Some d => bool_decide (d ≠ ∅)
  | None => false
  end.

(** A [RedisReplayStorage] object, as the keyword arguments it was
    constructed with (the event loop apart). *)
Record RedisReplayStorage := mkRedisReplayStorage {
  kwargs : gmap string value
}.

(** The replay storages constructed so far; an object is referred to by
    its position, so two references are the same object exactly when they
    are equal. *)
Definition heap : Type := list RedisReplayStorage.
Definition ref : Type := nat.

Section Factories.

(** [E]: the exceptions the injected factories can raise.  [Org],
    [Route], [Condition]: the objects they build. *)
Context {E Org Route Condition : Type}.

(** Computations that construct replay storages and can raise. *)
Definition M (A : Type) : Type := heap → (E + A) * heap.

Definition ret {A} (a : A) : M A := λ h, (inr a, h).

Definition bind {A B} (m : M A) (k : A → M B) : M B :=
  λ h, match m h with
       | (inr a, h') => k a h'
       | (inl e, h') => (inl e, h')
       end.

Definition lift {A} (r : E + A) : M A := λ h, (r, h).

(** [RedisReplayStorage( **spec, loop=loop)]. *)
Definition new_RedisReplayStorage (spec : gmap string value) : M ref :=
  λ h, (inr (length h), h ++ [mkRedisReplayStorage spec]).

Notation "'let!' x ':=' m 'in' k" := (bind m (λ x, k))
  (at level 10, x name, m at level 100, k at level 200).

(** A [SalesforceOrgMessageSource] object, as its constructor
    arguments. *)
Record SalesforceOrgMessageSource := mkSalesforceOrgMessageSource {
  name : string;
  org : Org;
  replay_marker_storage : option ref;
  replay_fallback : option ReplayOption
}.

(** What [create_message_source] returns: a [SalesforceOrgMessageSource]
    itself or a [MultiMessageSource] over a list of them. *)
Inductive MessageSource :=
  | OrgMessageSource (source : SalesforceOrgMessageSource)
  | MultiMessageSource (sources : list SalesforceOrgMessageSource).

(** [{name: await org_factory( **spec) for name, spec in org_specs.items()}] *)
Fixpoint create_orgs (org_factory : gmap string value → E + Org)
    (org_specs : pydict (gmap string value)) (acc : pydict Org)
  : M (pydict Org) :=
  match org_specs with
  | [] => ret acc
  | (name, spec) :: rest =>
    let! org := lift (org_factory spec) in
    create_orgs org_factory rest (setitem name org acc)
  end.

(** [create_message_source]. *)
Definition create_message_source
    (org_specs : pydict (gmap string value))
    (replay_spec : option (gmap string value))
    (org_factory : gmap string value → E + Org) : M MessageSource :=
  let! replay :=
    (if truthy replay_spec
     then let! storage := new_RedisReplayStorage (default ∅ replay_spec) in
          ret (Some storage, Some ALL_EVENTS)
     else ret (None, None)) in
  let! salesforce_orgs := create_orgs org_factory org_specs [] in
  let message_sources :=
    map (λ item, mkSalesforceOrgMessageSource item.1 item.2 replay.1 replay.2)
        salesforce_orgs in
  match message_sources with
  | [source] => ret (OrgMessageSource source)
  | _ => ret (MultiMessageSource message_sources)
  end.

(** [RoutingRule(condition, route)]. *)
Record RoutingRule := mkRoutingRule {
  condition : Condition;
  route : Route
}.

(** [MessageRouter(default_route, rules)]. *)
Record MessageRouter := mkMessageRouter {
  default_route : option Route;
  rules : list RoutingRule
}.

(** A rule specification: the keyword arguments of [create_rule]. *)
Record rule_spec := mkRuleSpec {
  condition_spec : string;
  route_spec : gmap string value
}.

(** [create_rule]. *)
Definition create_rule (spec : rule_spec)
    (condition_factory : string → E + Condition)
    (route_factory : gmap string value → E + Route) : E + RoutingRule :=
  match condition_factory (condition_spec spec) with
  | inl e => inl e
  | inr condition =>
    match route_factory (route_spec spec) with
    | inl e => inl e
    | inr route => inr (mkRoutingRule condition route)
    end
  end.

(** [[rule_factory( **spec) for spec in rule_specs]]: the rules are built
    in order, the first exception ends the comprehension. *)
Fixpoint create_rules {Spec} (rule_factory : Spec → E + RoutingRule)
    (rule_specs : list Spec) : E + list RoutingRule :=
  match rule_specs with
  | [] => inr []
  | spec :: rest =>
    match rule_factory spec with
    | inl e => inl e
    | inr rule =>
      match create_rules rule_factory rest with
      | inl e => inl e
      | inr rules => inr (rule :: rules)
      end
    end
  end.

(** [create_router]. *)
Definition create_router {Spec} (default_route_spec : option (gmap string value))
    (rule_specs : list Spec)
    (route_factory : gmap string value → E + Route)
    (rule_factory : Spec → E + RoutingRule) : E + MessageRouter :=
  match
    match default_route_spec with
    | Some spec =>
      match route_factory spec with
      | inl e => inl e
      | inr route => inr (Some route)
      end
    | None => inr None
    end
  with
  | inl e => inl e
  | inr default_route =>
    match create_rules rule_factory rule_specs with
    | inl e => inl e
    | inr rules => inr (mkMessageRouter default_route rules)
    end
  end.

End Factories.

Arguments SalesforceOrgMessageSource : clear implicits.
Arguments MessageSource : clear implicits.
Arguments RoutingRule : clear implicits.
Arguments MessageRouter : clear implicits.

Section MoreFactories.

Context {E Org Broker Sink : Type}.

(** The resources are added to the org one after the other; the org after
    each [add_resource] is the org the next one is called on. *)
Fixpoint add_resources (add_resource : Org → gmap string value → E + Org)
    (org : Org) (streaming_resource_specs : list (gmap string value)) : E + Org :=
  match streaming_resource_specs with
  | [] => inr org
  | spec :: rest =>
    match add_resource org spec with
    | inl e => inl e
    | inr org' => add_resources add_resource org' rest
    end
  end.

(** [create_salesforce_org]: [SalesforceOrg] is the constructor of the
    org and [add_resource] its method, which changes the org or raises. *)
Definition create_salesforce_org
    (SalesforceOrg : string → string → string → string → Org)
    (add_resource : Org → gmap string value → E + Org)
    (consumer_key consumer_secret username password : string)
    (streaming_resource_specs : list (gmap string value)) : E + Org :=
  let org := SalesforceOrg consumer_key consumer_secret username password in
  add_resources add_resource org streaming_resource_specs.

(** [resources_added add_resource org specs org']: [add_resource] succeeds
    on each of [specs] in turn, the first call on [org], every other call
    on the org the call before it left, and the last one leaves [org']. *)
Inductive resources_added (add_resource : Org → gmap string value → E + Org)
  : Org → list (gmap string value) → Org → Prop :=
  | added_none org : resources_added add_resource org [] org
  | added_next org spec org' rest org'' :
      add_resource org spec = inr org' →
      resources_added add_resource org' rest org'' →
      resources_added add_resource org (spec :: rest) org''.

(** [{name: f(v) for name, v in d.items()}] with an [f] that can raise. *)
Fixpoint comprehension {V W} (f : V → E + W) (d : pydict V) (acc : pydict W)
  : E + pydict W :=
  match d with
  | [] => inr acc
  | (name, v) :: rest =>
    match f v with
    | inl e => inl e
    | inr w => comprehension f rest (setitem name w acc)
    end
  end.

(** [MultiMessageSink(message_sinks)]. *)
Record MultiMessageSink := mkMultiMessageSink {
  sinks : pydict Sink
}.

(** [create_message_sink]: every broker is created before the first sink
    is. *)
Definition create_message_sink
    (broker_specs : pydict (gmap string value))
    (broker_factory : gmap string value → E + Broker)
    (broker_sink_factory : Broker → E + Sink) : E + MultiMessageSink :=
  match comprehension broker_factory broker_specs [] with
  | inl e => inl e
  | inr brokers =>
    match comprehension broker_sink_factory brokers [] with
    | inl e => inl e
    | inr message_sinks => inr (mkMultiMessageSink message_sinks)
    end
  end.

End MoreFactories.

Arguments MultiMessageSink : clear implicits.

(** ** The completion handler of the application *)

Module Application.

(** The exceptions a forwarding task can finish with:
    [rabbit_force.exceptions.MessageSinkError] and any other type. *)
Inductive exception :=
  | MessageSinkError (msg : string)
  | OtherError (type_name : string).

Inductive level := INFO | WARNING | ERROR.

(** [SourceMessagePair(source_name, message)], with the two parts of the
    message that are logged. *)
Record SourceMessagePair := mkSourceMessagePair {
  source_name : string;
  channel : string;
  replayId : Z
}.

Record LogRecord := mkLogRecord {
  levelname : level;
  about : option SourceMessagePair
}.

Section Handler.

Context {Route : Type}.

(** How the task finished: [future.result()] returns the route (or
    [None]) or raises the task's exception. *)
Inductive outcome :=
  | Returned (route : option Route)
  | Raised (e : exception).

(** The application: its [ignore_sink_errors] flag, the in-flight
    tasks [_forwarding_tasks] by task handle, and the log written so
    far. *)
Record Application := mkApplication {
  ignore_sink_errors : bool;
  _forwarding_tasks : gmap nat SourceMessagePair;
  log : list LogRecord
}.

Definition finish (app : Application) (future : nat)
    (records : list LogRecord) : Application :=
  mkApplication (ignore_sink_errors app)
                (delete future (_forwarding_tasks app))
                (log app ++ records).

(** Modelled from the spec: [Application._forward_message_done] of
    [rabbit_force/app.py], which is only present through its tests.
    The handler takes the task out of the in-flight set and inspects
    its result: a route is logged at INFO, no route at WARNING; a
    [MessageSinkError] is logged at ERROR and swallowed when
    [ignore_sink_errors] is set and raised again otherwise; any other
    exception is raised again.  The result is the exception the
    handler raises, if any, and the application afterwards. *)
Definition _forward_message_done (app : Application) (future : nat)
    (result : outcome) : option exception * Application :=
  let pair := _forwarding_tasks app !! future in
  match result with
  | Returned (Some _) => (None, finish app future [mkLogRecord INFO pair])
  | Returned None => (None, finish app future [mkLogRecord WARNING pair])
  | Raised (MessageSinkError msg) =>
    if ignore_sink_errors app
    then (None, finish app future [mkLogRecord ERROR pair])
    else (Some (MessageSinkError msg), finish app future [])
  | Raised e => (Some e, finish app future [])
  end.

End Handler.

Arguments outcome : clear implicits.

End Application.

(** The source objects a message source is made of. *)
Definition sources_of {Org} (source : MessageSource Org)
  : list (SalesforceOrgMessageSource Org) :=
  match source with
  | OrgMessageSource s => [s]
  | MultiMessageSource l => l
  end.

(** ** Inputs of the examples *)

(** A route with the three required fields. *)
Definition route_of (broker_name exchange_name routing_key : string)
  : gmap string value :=
  {[ "broker_name" := VStr broker_name;
     "exchange_name" := VStr exchange_name;
     "routing_key" := VStr routing_key ]}.

(** A route factory that keeps the specification and refuses an empty
    one, and the rule factory [create_rule] over it. *)
Definition sample_route_factory (spec : gmap string value)
  : string + gmap string value :=
  if bool_decide (spec = ∅) then inl "TypeError" else inr spec.

Definition sample_rule_factory (spec : rule_spec)
  : string + RoutingRule (gmap string value) string :=
  create_rule spec inr sample_route_factory.

Definition sample_rule_specs : list rule_spec :=
  [ mkRuleSpec "source == 'orgA'" (route_of "b1" "e1" "k.a");
    mkRuleSpec "source == 'orgB'" (route_of "b1" "e1" "k.b") ].

(** Python's [float] and [int] and marshmallow's boolean table on the raw
    values that are a float, an integer, a boolean, already: all the
    examples use. *)
Definition int_of_int (v : value) : option Z :=
  match v with VInt z => Some z | _ => None end.

Definition float_of_float (v : value) : option float :=
  match v with VFloat f => Some f | _ => None end.

Definition bool_of_bool (v : value) : option bool :=
  match v with VBool b => Some b | _ => None end.

(** A full PushTopic definition with the API version [v] and one more
    field. *)
Definition push_topic (v : float) (key : string) (x : value) : gmap string value :=
  {[ "Name" := VStr "t"; "ApiVersion" := VFloat v;
     "Query" := VStr "SELECT Id FROM X"; key := x ]}.

(** An org that is the list of the resources added to it, and an
    [add_resource] that refuses an empty specification. *)
Definition sample_SalesforceOrg (consumer_key consumer_secret username
    password : string) : list (gmap string value) := [].

Definition sample_add_resource (org : list (gmap string value))
    (spec : gmap string value) : string + list (gmap string value) :=
  if bool_decide (spec = ∅) then inl "TypeError" else inr (org ++ [spec]).

Definition sample_resource (name : string) : gmap string value :=
  {[ "resource_type" := VStr "PushTopic"; "resource_spec" := VDict {[ "Name" := VStr name ]} ]}.

(** An org factory that keeps the specification as the org and refuses
    an empty one. *)
Definition sample_org_factory (spec : gmap string value)
  : string + gmap string value :=
  if bool_decide (spec = ∅) then inl "TypeError" else inr spec.

Definition sample_org_spec : gmap string value :=
  {[ "consumer_key" := VStr "key"; "consumer_secret" := VStr "secret";
     "username" := VStr "username"; "password" := VStr "password" ]}.

(** The replay specifications of [TestCreateReplayStorage]. *)
Definition sample_replay_spec : gmap string value :=
  {[ "address" := VStr "address"; "key_prefix" := VStr "prefix" ]}.

Definition sample_replay_spec_without_prefix : gmap string value :=
  {[ "address" := VStr "address" ]}.

(** The router [create_router] builds from the sample rules and the
    default route of scenario S2. *)
Definition sample_router : MessageRouter (gmap string value) string :=
  mkMessageRouter
    (Some (route_of "b1" "e1" "k.def"))
    [ mkRoutingRule "source == 'orgA'" (route_of "b1" "e1" "k.a");
      mkRoutingRule "source == 'orgB'" (route_of "b1" "e1" "k.b") ].

(** The sources of the orgs ["org_name1"] and ["org_name2"] of the
    tests. *)
Definition sample_source (name : string) (storage : option ref)
    (fallback : option ReplayOption)
  : SalesforceOrgMessageSource (gmap string value) :=
  mkSalesforceOrgMessageSource name sample_org_spec storage fallback.

Definition one_org : pydict (gmap string value) :=
  [("org_name1", sample_org_spec)].

Definition two_orgs : pydict (gmap string value) :=
  [("org_name1", sample_org_spec); ("org_name2", sample_org_spec)].

(** Closed goals are settled by evaluation in the virtual machine. *)
Ltac vm_refl :=
  lazymatch goal with
  | |- ?l = ?r => vm_cast_no_check (@eq_refl _ r)
  end.

Ltac vm_decide := apply (bool_decide_unpack _); vm_cast_no_check I.

(** A field is declared by a schema: it is found in the list of its
    declarations. *)
Ltac declared_field :=
  unfold PushTopicSchema.fields, StreamingChannelSchema.fields, RouteSchema.fields;
  repeat first [apply list_elem_of_here | apply list_elem_of_further].

(** * Properties *)

(** ** Unknown fields *)


Lemma check_unknown_fields_unknown self data original_data :
  dom original_data ⊈ self →
  check_unknown_fields self data original_data =
    Some (ValidationErr (mkValidationError "Unknown field"
                           (elements (dom original_data ∖ self)))).
Proof.
  intros Hsub. unfold check_unknown_fields.
  rewrite bool_decide_eq_true_2; [done|].
  intros Hempty. apply Hsub. set_solver.
Qed.









(** ** Required fields of a PushTopic *)

Lemma single_field_id_or_name (data : gmap string value) (key : string) :
  size data = 1%nat → key ∈ dom data →
  dom data ∩ PushTopicSchema.unique_id_fields ≠ ∅ →
  key = "Id" ∨ key = "Name".
Proof.
  intros Hsize Hkey Hne. rewrite <- size_dom in Hsize.
  apply size_1_elem_of in Hsize as [x Hx]. apply leibniz_equiv in Hx.
  rewrite Hx in Hkey, Hne. apply elem_of_singleton in Hkey as ->.
  apply set_choose_L in Hne as [y Hy].
  apply elem_of_intersection in Hy as [Hy1 Hy2].
  apply elem_of_singleton in Hy1 as ->.
  unfold PushTopicSchema.unique_id_fields in Hy2.
  apply elem_of_union in Hy2 as [Hy2 | Hy2]; apply elem_of_singleton in Hy2; auto.
Qed.

(** C3. The required-fields check of a PushTopic rejects the empty
    specification; it accepts a specification of exactly one field only
    if that field is [Id] or [Name]; and it accepts a specification with a
    field other than [Id] and [Name] only if [Name], [ApiVersion] and
    [Query] are all present. *)
Theorem push_topic_required_fields :
  PushTopicSchema.check_required_fileds ∅
    = Some (ValidationErr PushTopicSchema.no_field_error) ∧
  (∀ key v, PushTopicSchema.check_required_fileds {[ key := v ]} = None →
            key = "Id" ∨ key = "Name") ∧
  (∀ data key,
     key ∈ dom data → key ∉ PushTopicSchema.unique_id_fields →
     PushTopicSchema.check_required_fileds data = None →
     "Name" ∈ dom data ∧ "ApiVersion" ∈ dom data ∧ "Query" ∈ dom data).
Proof.
  split; [done|]. split.
  - intros key v. unfold PushTopicSchema.check_required_fileds.
    rewrite map_size_singleton. rewrite bool_decide_eq_true_2; [|done].
    case_bool_decide as Hinter; [done|]. intros _.
    apply (single_field_id_or_name {[ key := v ]}); [apply map_size_singleton| |done].
    rewrite dom_singleton_L. set_solver.
  - intros data key Hkey Hnot. unfold PushTopicSchema.check_required_fileds.
    case_bool_decide as Hone.
    + case_bool_decide as Hinter; [done|]. intros _. exfalso.
      destruct (single_field_id_or_name data key Hone Hkey Hinter) as [-> | ->];
        apply Hnot; unfold PushTopicSchema.unique_id_fields; set_solver.
    + case_bool_decide as Hmany; [|done].
      case_bool_decide as Hreq; [done|]. intros _.
      assert (Hin : ∀ k, k ∈ PushTopicSchema.required_fields → k ∈ dom data).
      { intros k Hk. rewrite <- Hreq in Hk.
        by apply elem_of_intersection in Hk as [? _]. }
      split_and!; apply Hin, (bool_decide_unpack _); vm_compute; exact I.
Qed.

(** The theorem at the referencing form [{Name: "t"}] and at a full
    definition. *)
Lemma push_topic_required_fields_witness :
  ("Name" = "Id" ∨ "Name" = "Name") ∧
  ("Name" ∈ dom ({[ "Name" := VStr "t"; "ApiVersion" := VFloat 30.0;
                     "Query" := VStr "SELECT Id FROM X" ]} : gmap string value) ∧
   "ApiVersion" ∈ dom ({[ "Name" := VStr "t"; "ApiVersion" := VFloat 30.0;
                           "Query" := VStr "SELECT Id FROM X" ]} : gmap string value) ∧
   "Query" ∈ dom ({[ "Name" := VStr "t"; "ApiVersion" := VFloat 30.0;
                      "Query" := VStr "SELECT Id FROM X" ]} : gmap string value)).
Proof.
  destruct push_topic_required_fields as (_ & Hone & Hfull). split.
  - apply (Hone "Name" (VStr "t")). vm_compute. reflexivity.
  - apply (Hfull _ "Query").
    + apply (bool_decide_unpack _). vm_compute. exact I.
    + apply (bool_decide_unpack _). vm_compute. exact I.
    + vm_compute. reflexivity.
Defined.

(** ** API version of a PushTopic *)

Lemma has_new_field (data : gmap string value) (key : string) :
  key ∈ new_fields → PushTopicSchema.has key data = true →
  PushTopicSchema.has "NotifyForOperationCreate" data
  || PushTopicSchema.has "NotifyForOperationDelete" data
  || PushTopicSchema.has "NotifyForOperationUndelete" data
  || PushTopicSchema.has "NotifyForOperationUpdate" data = true.
Proof.
  unfold new_fields. intros Hkey Hhas.
  repeat (apply elem_of_cons in Hkey as [-> | Hkey];
          [rewrite Hhas; by rewrite ?orb_true_r|]).
  by apply elem_of_nil in Hkey.
Qed.

(** C2, on the code. With the valid API version 28.5, which is not 28.0
    or earlier and not 29.0 or later, the schema loads a specification
    with [NotifyForOperations] and one with [NotifyForOperationCreate]:
    [check_api_version] raises on neither. *)
Theorem push_topic_api_version_28_5 :
  validate.Range 20.0 42.0 (VFloat 28.5) = true ∧
  PrimFloat.leb 28.5 28.0 = false ∧
  PrimFloat.leb 29.0 28.5 = false ∧
  PushTopicSchema.check_api_version
    (push_topic 28.5 "NotifyForOperations" (VStr "All")) = None ∧
  load (PushTopicSchema.schema float_of_float bool_of_bool)
       (push_topic 28.5 "NotifyForOperations" (VStr "All"))
    = Loaded (push_topic 28.5 "NotifyForOperations" (VStr "All")) ∧
  PushTopicSchema.check_api_version
    (push_topic 28.5 "NotifyForOperationCreate" (VBool true)) = None ∧
  load (PushTopicSchema.schema float_of_float bool_of_bool)
       (push_topic 28.5 "NotifyForOperationCreate" (VBool true))
    = Loaded (push_topic 28.5 "NotifyForOperationCreate" (VBool true)).
Proof. repeat apply conj; vm_compute; reflexivity. Qed.

(** Scenario S6: the specification is rejected, by [check_api_version]
    alone. *)
Example push_topic_scenario_S6 :
  load (PushTopicSchema.schema float_of_float bool_of_bool)
       (push_topic 30.0 "NotifyForOperations" (VStr "All"))
  = Rejected [SchemaError PushTopicSchema.old_field_error].
Proof. vm_compute. reflexivity. Qed.

(** What the check decides, for every deserialised PushTopic specification
    whose [ApiVersion] is the float [v]: [NotifyForOperations] is accepted only
    when [v >= 29.0] is false and is rejected whenever [v >= 29.0]; any of
    the four [NotifyForOperation...] fields is accepted only when
    [v <= 28.0] is false and is rejected whenever [v <= 28.0]; with
    [ApiVersion] 30.0 a specification with [NotifyForOperations] is
    rejected. *)
Theorem push_topic_api_version (data : gmap string value) (v : float) :
  data !! "ApiVersion" = Some (VFloat v) →
  (PushTopicSchema.has "NotifyForOperations" data = true →
   PushTopicSchema.check_api_version data = None →
   PrimFloat.leb 29.0 v = false) ∧
  (∀ key, key ∈ new_fields → PushTopicSchema.has key data = true →
          PushTopicSchema.check_api_version data = None →
          PrimFloat.leb v 28.0 = false) ∧
  (PushTopicSchema.has "NotifyForOperations" data = true →
   PrimFloat.leb 29.0 v = true →
   PushTopicSchema.check_api_version data
     = Some (ValidationErr PushTopicSchema.old_field_error)) ∧
  (∀ key, key ∈ new_fields → PushTopicSchema.has key data = true →
          PrimFloat.leb v 28.0 = true →
          ∃ e, PushTopicSchema.check_api_version data = Some (ValidationErr e)) ∧
  (PushTopicSchema.has "NotifyForOperations" data = true →
   v = 30.0%float →
   PushTopicSchema.check_api_version data
     = Some (ValidationErr PushTopicSchema.old_field_error)).
Proof.
  intros Hversion. unfold PushTopicSchema.check_api_version. rewrite Hversion.
  cbn [PushTopicSchema.ge_const PushTopicSchema.le_const].
  split_and!.
  - intros ->. destruct (PrimFloat.leb 29.0 v); [done|done].
  - intros key Hkey Hhas. rewrite (has_new_field data key Hkey Hhas).
    destruct (PrimFloat.leb 29.0 v && _); [done|].
    destruct (PrimFloat.leb v 28.0); [done|done].
  - by intros -> ->.
  - intros key Hkey Hhas ->. rewrite (has_new_field data key Hkey Hhas).
    destruct (PrimFloat.leb 29.0 v && _); eauto.
  - by intros -> ->.
Qed.

(** The theorem at the specification of scenario S6 and at one that uses
    a new field with API version 31.0. *)
Lemma push_topic_api_version_witness :
  PushTopicSchema.check_api_version
    {[ "Name" := VStr "t"; "ApiVersion" := VFloat 30.0;
       "Query" := VStr "SELECT Id FROM X"; "NotifyForOperations" := VStr "All" ]}
    = Some (ValidationErr PushTopicSchema.old_field_error) ∧
  PrimFloat.leb 31.0 28.0 = false.
Proof.
  split.
  - apply (push_topic_api_version _ 30.0%float); vm_compute; reflexivity.
  - apply (push_topic_api_version
             {[ "Name" := VStr "t"; "ApiVersion" := VFloat 31.0;
                "Query" := VStr "SELECT Id FROM X";
                "NotifyForOperationCreate" := VBool true ]}
             31.0%float) with (key := "NotifyForOperationCreate").
    + vm_compute; reflexivity.
    + apply (bool_decide_unpack _). vm_compute. exact I.
    + vm_compute; reflexivity.
    + vm_compute; reflexivity.
Defined.

(** ** What an accepted input looks like *)

Lemma unmarshal_fold_no_error original_data (decls : list (string * field)) :
  ∀ acc, (foldl (unmarshal_field original_data) acc decls).2 = [] →
         acc.2 = [] ∧
         Forall (λ decl, ∀ e, deserialize_field decl.2 (original_data !! decl.1)
                              ≠ Error e) decls.
Proof.
  induction decls as [|decl decls IH]; intros acc Hfold; cbn [foldl] in Hfold.
  - by split.
  - apply IH in Hfold as [Hstep Hrest]. unfold unmarshal_field in Hstep.
    destruct (deserialize_field decl.2 (original_data !! decl.1)) as [|v|e] eqn:Hd;
      cbn in Hstep.
    + split; [done|]. constructor; [by rewrite Hd|done].
    + split; [done|]. constructor; [by rewrite Hd|done].
    + by apply app_eq_nil in Hstep as [_ ?].
Qed.

Lemma invoke_validators_no_error vs self data original_data :
  invoke_validators vs self data original_data = Some [] →
  Forall (λ v : schema_validator, v self data original_data = None) vs.
Proof.
  induction vs as [|v vs IH]; cbn [invoke_validators]; [by constructor|].
  destruct (v self data original_data) as [[e|]|] eqn:Hv; [|done|].
  - by destruct (invoke_validators vs self data original_data).
  - intros Hrest. constructor; [done|by apply IH].
Qed.

(** An input is loaded only if no field was refused and every
    schema-level validator returned normally on the unmarshalled data. *)
Lemma load_Loaded_inv s original_data data :
  load s original_data = Loaded data →
  data = (unmarshal s original_data).1 ∧
  Forall (λ decl, ∀ e, deserialize_field decl.2 (original_data !! decl.1) ≠ Error e)
         (declared s) ∧
  Forall (λ v : schema_validator, v (field_set s) data original_data = None)
         (schema_validators s).
Proof.
  unfold load.
  destruct (unmarshal s original_data).2 as [|x errs] eqn:Hfields; [|done].
  destruct (invoke_validators _ _ _ _) as [[|y verrs]|] eqn:Hinvoke; [|done..].
  intros [= <-]. split; [done|]. split.
  - by apply unmarshal_fold_no_error in Hfields as [_ ?].
  - by apply invoke_validators_no_error.
Qed.

Lemma required_field_present (f : field) (raw : option value) :
  required f = true →
  (∀ e, deserialize_field f raw ≠ Error e) →
  ∃ v, raw = Some v.
Proof.
  intros Hreq Hok. destruct raw as [v|]; [by exists v|].
  cbn in Hok. rewrite Hreq in Hok. by destruct (Hok Missing_required).
Qed.

(** A field of class [fields.String] without [allow_none] only accepts a
    string that passes its validators. *)
Lemma string_field_accepted (f : field) (v : value) :
  deserialize f = deserialize fields.String →
  allow_none f = false →
  (∀ e, deserialize_field f (Some v) ≠ Error e) →
  ∃ s, v = VStr s ∧ forallb (λ p, p (VStr s)) (validators f) = true.
Proof.
  intros Hclass Hnone Hok. unfold deserialize_field in Hok.
  rewrite Hclass, Hnone in Hok.
  destruct v as [|b|z|x|s|l|d]; cbn in Hok;
    try (by destruct (Hok Invalid)); try (by destruct (Hok Null)).
  exists s. split; [done|].
  destruct (forallb _ _); [done|]. by destruct (Hok Failed_validation).
Qed.

Lemma Length_bounds lo hi (s : string) :
  validate.Length (Some lo) (Some hi) (VStr s) = true →
  (lo ≤ String.length s ≤ hi)%nat.
Proof.
  unfold validate.Length. cbn. intros [Hlo Hhi]%andb_prop.
  by apply bool_decide_eq_true in Hlo, Hhi.
Qed.

Lemma Length_min lo (s : string) :
  validate.Length (Some lo) None (VStr s) = true → (lo ≤ String.length s)%nat.
Proof.
  unfold validate.Length. cbn. rewrite andb_true_r.
  by intros Hlo%bool_decide_eq_true.
Qed.

Lemma Length_max hi (s : string) :
  validate.Length None (Some hi) (VStr s) = true → (String.length s ≤ hi)%nat.
Proof.
  unfold validate.Length. cbn. by intros Hhi%bool_decide_eq_true.
Qed.

Lemma deserialize_field_Absent (f : field) (raw : option value) :
  deserialize_field f raw = Absent → raw = None.
Proof.
  destruct raw as [v|]; [|done]. unfold deserialize_field.
  destruct v; repeat case_match; done.
Qed.

Lemma deserialize_field_Value (f : field) (raw : option value) (v : value) :
  deserialize_field f raw = Value v → is_Some raw.
Proof.
  destruct raw as [x|]; [done|]. unfold deserialize_field. by case_match.
Qed.

(** Without [attribute=] and without field errors, the unmarshalled data
    has the declared keys of the input. *)
Lemma unmarshal_fold_dom original_data (decls : list (string * field)) :
  Forall (λ decl, attribute decl.2 = None) decls →
  ∀ acc, (foldl (unmarshal_field original_data) acc decls).2 = [] →
         dom (foldl (unmarshal_field original_data) acc decls).1
         = dom acc.1 ∪ (dom original_data ∩ list_to_set decls.*1).
Proof.
  induction 1 as [|decl decls Hattr _ IH]; intros acc Hfold; cbn [foldl] in *.
  - cbn. set_solver.
  - rewrite (IH _ Hfold).
    apply unmarshal_fold_no_error in Hfold as [Hstep _].
    unfold unmarshal_field in *.
    destruct (deserialize_field decl.2 (original_data !! decl.1)) as [|v|e] eqn:Hd;
      cbn [fst snd] in *.
    + apply deserialize_field_Absent, not_elem_of_dom in Hd.
      cbn [fmap list_fmap list_to_set]. set_solver.
    + apply deserialize_field_Value, elem_of_dom in Hd.
      rewrite Hattr. cbn [default fmap list_fmap list_to_set].
      rewrite dom_insert_L. set_solver.
    + by apply app_eq_nil in Hstep as [_ ?].
Qed.

Lemma check_unknown_fields_None_inv self data original_data :
  check_unknown_fields self data original_data = None →
  dom original_data ⊆ self.
Proof.
  intros Hcheck. destruct (decide (dom original_data ⊆ self)) as [|Hsub]; [done|].
  by rewrite (check_unknown_fields_unknown _ _ _ Hsub) in Hcheck.
Qed.

(** A strict schema without [attribute=] loads an input into data with
    the very keys of the input. *)
Lemma strict_load_dom decls own original_data data :
  Forall (λ decl, attribute decl.2 = None) decls →
  load (StrictSchema decls own) original_data = Loaded data →
  dom data = dom original_data.
Proof.
  intros Hattr Hload.
  assert (Hno : (unmarshal (StrictSchema decls own) original_data).2 = []).
  { unfold load in Hload.
    by destruct (unmarshal (StrictSchema decls own) original_data).2. }
  apply load_Loaded_inv in Hload as (-> & _ & Hvalid).
  cbn [schema_validators StrictSchema] in Hvalid.
  apply Forall_cons in Hvalid as [Hknown%check_unknown_fields_None_inv _].
  unfold unmarshal in *. cbn [declared StrictSchema] in *.
  rewrite (unmarshal_fold_dom _ _ Hattr _ Hno). cbn [fst].
  rewrite dom_empty_L. unfold field_set in Hknown. cbn [declared] in Hknown.
  set_solver.
Qed.

(** ** StreamingChannel specifications *)

Lemma streaming_channel_attributes :
  Forall (λ decl : string * field, attribute decl.2 = None)
         StreamingChannelSchema.fields.
Proof. repeat constructor. Qed.




(** A channel referred to by [Id] is loaded with a description as well:
    of a specification with several fields the check asks nothing. *)
Example streaming_channel_without_name :
  load StreamingChannelSchema.schema {[ "Id" := VStr "0M6"; "Description" := VStr "d" ]}
  = Loaded {[ "Id" := VStr "0M6"; "Description" := VStr "d" ]}.
Proof. vm_compute. reflexivity. Qed.

(** ** Route specifications *)

Lemma route_schema_required original_data data :
  load RouteSchema.schema original_data = Loaded data →
  (∃ s, original_data !! "broker_name" = Some (VStr s) ∧ (1 ≤ String.length s)%nat) ∧
  (∃ s, original_data !! "exchange_name" = Some (VStr s)) ∧
  (∃ s, original_data !! "routing_key" = Some (VStr s) ∧ (1 ≤ String.length s)%nat).
Proof.
  intros (_ & Hfields & _)%load_Loaded_inv.
  cbn [declared RouteSchema.schema StrictSchema] in Hfields.
  unfold RouteSchema.fields in Hfields.
  apply Forall_cons in Hfields as [Hbroker Hfields].
  apply Forall_cons in Hfields as [Hexchange Hfields].
  apply Forall_cons in Hfields as [Hkey _].
  cbn [fst snd] in Hbroker, Hexchange, Hkey. split_and!.
  - pose proof Hbroker as Hpresent.
    apply required_field_present in Hpresent as [v Hv]; [|done].
    rewrite Hv in Hbroker |- *.
    apply string_field_accepted in Hbroker as (s & -> & Hvalid); [|done..].
    exists s. split; [done|]. cbn in Hvalid. rewrite andb_true_r in Hvalid.
    by apply Length_min.
  - pose proof Hexchange as Hpresent.
    apply required_field_present in Hpresent as [v Hv]; [|done].
    rewrite Hv in Hexchange |- *.
    apply string_field_accepted in Hexchange as (s & -> & _); [|done..].
    by exists s.
  - pose proof Hkey as Hpresent.
    apply required_field_present in Hpresent as [v Hv]; [|done].
    rewrite Hv in Hkey |- *.
    apply string_field_accepted in Hkey as (s & -> & Hvalid); [|done..].
    exists s. split; [done|]. cbn in Hvalid. rewrite andb_true_r in Hvalid.
    by apply Length_min.
Qed.

(** C6. A route specification that [RouteSchema] loads has [broker_name]
    and [routing_key], both non-empty strings, and has [exchange_name], a
    string; [properties] may be left out or null: a route with the three
    required fields, [broker_name] and [routing_key] non-empty, is loaded
    without [properties] and with [properties] null.  A route whose
    [routing_key] is empty or whose [broker_name] is missing is not
    loaded. *)
Theorem route_schema :
  (∀ original_data data,
     load RouteSchema.schema original_data = Loaded data →
     (∃ s, original_data !! "broker_name" = Some (VStr s) ∧ s ≠ "") ∧
     (∃ s, original_data !! "exchange_name" = Some (VStr s)) ∧
     (∃ s, original_data !! "routing_key" = Some (VStr s) ∧ s ≠ "")) ∧
  (∀ broker_name exchange_name routing_key,
     broker_name ≠ "" → routing_key ≠ "" →
     let r := route_of broker_name exchange_name routing_key in
     load RouteSchema.schema r = Loaded r ∧
     load RouteSchema.schema (<[ "properties" := VNone ]> r)
       = Loaded (<[ "properties" := VNone ]> r)) ∧
  (∀ original_data data,
     original_data !! "routing_key" = Some (VStr "") →
     load RouteSchema.schema original_data ≠ Loaded data) ∧
  (∀ original_data data,
     original_data !! "broker_name" = None →
     load RouteSchema.schema original_data ≠ Loaded data).
Proof.
  split_and!.
  - intros original_data data
      ((b & Hb & Hblen) & (e & He) & (k & Hk & Hklen))%route_schema_required.
    split_and!.
    + exists b. split; [done|]. intros ->. cbn in Hblen. lia.
    + by exists e.
    + exists k. split; [done|]. intros ->. cbn in Hklen. lia.
  - intros broker_name exchange_name routing_key Hbroker Hkey.
    destruct broker_name as [|c1 broker_name]; [done|].
    destruct routing_key as [|c2 routing_key]; [done|].
    split; vm_compute; reflexivity.
  - intros original_data data Hkey
      (_ & _ & (k & Hk & Hklen))%route_schema_required.
    rewrite Hkey in Hk. injection Hk as <-. cbn in Hklen. lia.
  - intros original_data data Hbroker
      ((b & Hb & _) & _)%route_schema_required.
    by rewrite Hbroker in Hb.
Qed.

(** The theorem at the route of scenario S2, and at specifications with an
    empty routing key and without broker name. *)
Lemma route_schema_witness :
  (load RouteSchema.schema (route_of "b1" "e1" "k.def")
     = Loaded (route_of "b1" "e1" "k.def") ∧
   load RouteSchema.schema (<[ "properties" := VNone ]> (route_of "b1" "e1" "k.def"))
     = Loaded (<[ "properties" := VNone ]> (route_of "b1" "e1" "k.def"))) ∧
  (∃ s, route_of "b1" "e1" "k.def" !! "routing_key" = Some (VStr s) ∧ s ≠ "") ∧
  load RouteSchema.schema (route_of "b1" "e1" "") ≠ Loaded ∅ ∧
  load RouteSchema.schema {[ "exchange_name" := VStr "e1"; "routing_key" := VStr "k" ]}
    ≠ Loaded ∅.
Proof.
  destruct route_schema as (Hloaded & Haccepts & Hempty & Hmissing).
  split; [|split_and!].
  - apply (Haccepts "b1" "e1" "k.def"); discriminate.
  - destruct (Hloaded (route_of "b1" "e1" "k.def") (route_of "b1" "e1" "k.def"))
      as (_ & _ & Hkey); [|exact Hkey].
    vm_compute. reflexivity.
  - apply Hempty. vm_compute. reflexivity.
  - apply Hmissing. vm_compute. reflexivity.
Defined.

(** ** The router factory *)

Section Router.

Context {E Route Condition Spec : Type}.
Implicit Types (route_factory : gmap string value → E + Route)
               (rule_factory : Spec → E + RoutingRule Route Condition).

Lemma create_rules_inr rule_factory (rule_specs : list Spec) rules :
  create_rules rule_factory rule_specs = inr rules →
  Forall2 (λ spec rule, rule_factory spec = inr rule) rule_specs rules.
Proof.
  revert rules. induction rule_specs as [|spec rest IH]; intros rules; cbn.
  - intros [= <-]. constructor.
  - destruct (rule_factory spec) as [e|rule] eqn:Hrule; [done|].
    destruct (create_rules rule_factory rest) as [e|rules'] eqn:Hrest; [done|].
    intros [= <-]. constructor; [done|by apply IH].
Qed.

Lemma create_rules_total rule_factory (rule_specs : list Spec) :
  Forall (λ spec, ∃ rule, rule_factory spec = inr rule) rule_specs →
  ∃ rules, create_rules rule_factory rule_specs = inr rules.
Proof.
  induction 1 as [|spec rest [rule Hrule] _ [rules IH]]; cbn.
  - by eexists.
  - rewrite Hrule, IH. by eexists.
Qed.

(** C7. When [create_router] returns a router, its default route is
    [None] exactly when [default_route_spec] is [None] and is otherwise
    the route [route_factory] builds from [default_route_spec], and its
    rules are the rules [rule_factory] builds from the entries of
    [rule_specs], one per entry and in the same order.  It returns a
    router whenever the factories build the default route and every
    rule. *)
Theorem create_router_spec (default_route_spec : option (gmap string value))
    (rule_specs : list Spec) route_factory rule_factory :
  (∀ router,
     create_router default_route_spec rule_specs route_factory rule_factory
       = inr router →
     (default_route router = None ↔ default_route_spec = None) ∧
     (∀ spec, default_route_spec = Some spec →
              ∃ route, route_factory spec = inr route ∧
                       default_route router = Some route) ∧
     length (rules router) = length rule_specs ∧
     Forall2 (λ spec rule, rule_factory spec = inr rule)
             rule_specs (rules router)) ∧
  ((∀ spec, default_route_spec = Some spec →
            ∃ route, route_factory spec = inr route) →
   Forall (λ spec, ∃ rule, rule_factory spec = inr rule) rule_specs →
   ∃ router,
     create_router default_route_spec rule_specs route_factory rule_factory
       = inr router).
Proof.
  unfold create_router. split.
  - intros router.
    destruct default_route_spec as [spec|].
    + destruct (route_factory spec) as [e|route] eqn:Hroute; [done|].
      destruct (create_rules rule_factory rule_specs) as [e|rules] eqn:Hrules;
        [done|].
      intros [= <-]. cbn. apply create_rules_inr in Hrules.
      split_and!; [done| |by erewrite <- Forall2_length|done].
      intros spec' [= <-]. by exists route.
    + destruct (create_rules rule_factory rule_specs) as [e|rules] eqn:Hrules;
        [done|].
      intros [= <-]. cbn. apply create_rules_inr in Hrules.
      split_and!; [done|done|by erewrite <- Forall2_length|done].
  - intros Hdefault Hrules.
    destruct (create_rules_total _ _ Hrules) as [rules ->].
    destruct default_route_spec as [spec|]; [|by eexists].
    destruct (Hdefault spec eq_refl) as [route ->]. by eexists.
Qed.

End Router.

(** The theorem at a router with a default route and two rules. *)
Lemma create_router_spec_witness :
  (∃ router,
     create_router (Some (route_of "b1" "e1" "k.def")) sample_rule_specs
                   sample_route_factory sample_rule_factory = inr router) ∧
  length (rules sample_router) = length sample_rule_specs ∧
  (∃ route, sample_route_factory (route_of "b1" "e1" "k.def") = inr route ∧
            default_route sample_router = Some route).
Proof.
  destruct (create_router_spec (Some (route_of "b1" "e1" "k.def"))
              sample_rule_specs sample_route_factory sample_rule_factory)
    as [Hreturned Htotal].
  split.
  - apply Htotal.
    + intros spec [= <-]. exists (route_of "b1" "e1" "k.def"). vm_refl.
    + apply Forall_cons. split.
      { exists (mkRoutingRule "source == 'orgA'" (route_of "b1" "e1" "k.a")).
        vm_refl. }
      apply Forall_cons. split; [|apply Forall_nil_2].
      exists (mkRoutingRule "source == 'orgB'" (route_of "b1" "e1" "k.b")).
      vm_refl.
  - destruct (Hreturned sample_router) as (_ & Hdefault & Hlength & _); [vm_refl|].
    split; [exact Hlength|]. exact (Hdefault _ eq_refl).
Defined.

(** ** The message source factory *)

Lemma setitem_fresh {V} (key : string) (v : V) (d : pydict V) :
  key ∉ d.*1 → setitem key v d = d ++ [(key, v)].
Proof.
  induction d as [|[k x] d IH]; cbn; [done|].
  intros Hfresh. apply not_elem_of_cons in Hfresh as [Hne Hfresh].
  rewrite bool_decide_eq_false_2; [|done]. by rewrite IH.
Qed.

Section MessageSources.

Context {E Org : Type}.
Implicit Types (org_factory : gmap string value → E + Org)
               (org_specs : pydict (gmap string value))
               (h : heap).

(** Creating the orgs constructs no replay storage. *)
Lemma create_orgs_heap org_factory org_specs :
  ∀ acc h r h',
    create_orgs org_factory org_specs acc h = (r, h') → h' = h.
Proof.
  induction org_specs as [|[name spec] rest IH]; intros acc h r h'; cbn.
  - unfold ret. by intros [= _ <-].
  - unfold bind, lift.
    destruct (org_factory spec) as [e|org]; [by intros [= _ <-]|]. apply IH.
Qed.

(** The orgs are created in the order of the specifications, each under
    the name of its specification. *)
Lemma create_orgs_inr org_factory org_specs :
  ∀ acc h orgs h',
    NoDup (acc.*1 ++ org_specs.*1) →
    create_orgs org_factory org_specs acc h = (inr orgs, h') →
    ∃ new, orgs = acc ++ new ∧
           Forall2 (λ item created,
                      created.1 = item.1 ∧ org_factory item.2 = inr created.2)
                   org_specs new.
Proof.
  induction org_specs as [|[name spec] rest IH]; intros acc h orgs h' Hdup; cbn.
  - unfold ret. intros [= <- _]. exists []. by rewrite app_nil_r.
  - unfold bind, lift.
    destruct (org_factory spec) as [e|org] eqn:Horg; [done|].
    intros Hrest. cbn in Hdup.
    assert (Hfresh : name ∉ acc.*1).
    { apply NoDup_app in Hdup as (_ & Hdisjoint & _).
      intros Hin. apply (Hdisjoint name Hin). by left. }
    rewrite (setitem_fresh _ _ _ Hfresh) in Hrest.
    apply IH in Hrest as (new & -> & Hnew).
    + exists ((name, org) :: new). split; [by rewrite <- app_assoc|].
      by constructor.
    + rewrite fmap_app. cbn. by rewrite <- app_assoc.
Qed.

Lemma create_orgs_total org_factory org_specs :
  Forall (λ item, ∃ org, org_factory item.2 = inr org) org_specs →
  ∀ acc h, ∃ orgs, create_orgs org_factory org_specs acc h = (inr orgs, h).
Proof.
  induction 1 as [|[name spec] rest [org Horg] _ IH]; intros acc h; cbn.
  - by eexists.
  - unfold bind, lift. cbn in Horg. rewrite Horg. apply IH.
Qed.

(** The two ways [create_message_source] starts: with or without a replay
    storage. *)
Lemma create_message_source_unfold org_specs replay_spec org_factory h :
  create_message_source org_specs replay_spec org_factory h =
  let h1 := if truthy replay_spec
            then h ++ [mkRedisReplayStorage (default ∅ replay_spec)] else h in
  let storage := if truthy replay_spec then Some (length h) else None in
  let fallback := if truthy replay_spec then Some ALL_EVENTS else None in
  match create_orgs org_factory org_specs [] h1 with
  | (inr salesforce_orgs, h2) =>
    let message_sources :=
      map (λ item, mkSalesforceOrgMessageSource item.1 item.2 storage fallback)
          salesforce_orgs in
    (inr match message_sources with
         | [source] => OrgMessageSource source
         | _ => MultiMessageSource message_sources
         end, h2)
  | (inl e, h2) => (inl e, h2)
  end.
Proof.
  unfold create_message_source, bind, ret, new_RedisReplayStorage.
  destruct (truthy replay_spec); cbn;
    destruct (create_orgs _ _ _ _) as [[e|orgs] h2]; cbn; [done| |done|].
  - by destruct orgs as [|? [|? ?]].
  - by destruct orgs as [|? [|? ?]].
Qed.

End MessageSources.

Section MessageSourceProperties.

Context {E Org : Type}.
Implicit Types (org_factory : gmap string value → E + Org)
               (org_specs : pydict (gmap string value))
               (h : heap).

(** C9, amended. For every [org_specs] dictionary: when
    [create_message_source] returns, there is one source per entry, in
    order, each with the name of its entry and wrapping the org made from
    its specification; with exactly one entry the result is that
    [SalesforceOrgMessageSource] itself, and with any other number of
    entries it is the [MultiMessageSource] over the sources.  It returns
    whenever [org_factory] makes every org. *)
Theorem create_message_source_single_or_multi org_specs replay_spec org_factory h :
  NoDup org_specs.*1 →
  (∀ result h',
     create_message_source org_specs replay_spec org_factory h = (inr result, h') →
     ∃ sources,
       Forall2 (λ item source,
                  name source = item.1 ∧ org_factory item.2 = inr (org source))
               org_specs sources ∧
       (length org_specs = 1%nat →
        ∃ source, sources = [source] ∧ result = OrgMessageSource source) ∧
       (length org_specs ≠ 1%nat → result = MultiMessageSource sources)) ∧
  (Forall (λ item, ∃ org, org_factory item.2 = inr org) org_specs →
   ∃ result h',
     create_message_source org_specs replay_spec org_factory h = (inr result, h')).
Proof.
  intros Hdup. rewrite create_message_source_unfold. cbn zeta. split.
  - intros result h'.
    destruct (create_orgs _ _ _ _) as [[e|orgs] h2] eqn:Horgs; [done|].
    intros [= <- <-].
    apply create_orgs_inr in Horgs as (new & -> & Hnew); [|done].
    cbn [app].
    exists (map (λ item, mkSalesforceOrgMessageSource item.1 item.2
                   (if truthy replay_spec then Some (length h) else None)
                   (if truthy replay_spec then Some ALL_EVENTS else None)) new).
    split; [|split].
    + clear Hdup. induction Hnew as [|item created rest new' [Hname Horg] _ IH];
        cbn; constructor; done.
    + intros Hone. apply Forall2_length in Hnew. rewrite Hone in Hnew.
      destruct new as [|created [|? ?]]; [done| |done]. by eexists.
    + intros Hmany. apply Forall2_length in Hnew.
      destruct new as [|created [|? ?]]; [done| |done].
      cbn in Hnew. by destruct Hmany.
  - intros Hall.
    pose proof (create_orgs_total org_factory org_specs Hall) as Htotal.
    match goal with
    | |- context [create_orgs _ _ ?acc ?h1] => destruct (Htotal acc h1) as [orgs ->]
    end.
    by do 2 eexists.
Qed.

(** C10. When [replay_spec] is [None] or empty, [create_message_source]
    constructs no replay storage and every source it returns has no
    replay storage and the replay fallback [None]; when [replay_spec] is a
    non-empty specification, exactly one [RedisReplayStorage] is
    constructed, from that specification, and every source it returns
    refers to that one storage and has the replay fallback
    [ALL_EVENTS]. *)
Theorem create_message_source_replay org_specs replay_spec org_factory h r h' :
  create_message_source org_specs replay_spec org_factory h = (r, h') →
  (replay_spec = None ∨ replay_spec = Some ∅ →
   h' = h ∧
   ∀ result, r = inr result →
     Forall (λ source, replay_marker_storage source = None ∧
                       replay_fallback source = None)
            (sources_of result)) ∧
  (∀ spec, replay_spec = Some spec → spec ≠ ∅ →
   h' = h ++ [mkRedisReplayStorage spec] ∧
   h' !! length h = Some (mkRedisReplayStorage spec) ∧
   ∀ result, r = inr result →
     Forall (λ source, replay_marker_storage source = Some (length h) ∧
                       replay_fallback source = Some ALL_EVENTS)
            (sources_of result)).
Proof.
  rewrite create_message_source_unfold. cbn zeta. intros Hrun. split.
  - intros Habsent.
    assert (Hfalse : truthy replay_spec = false).
    { destruct Habsent as [-> | ->]; [done|].
      cbn. by apply bool_decide_eq_false_2; intros []. }
    rewrite Hfalse in Hrun.
    destruct (create_orgs _ _ _ _) as [[e|orgs] h2] eqn:Horgs;
      apply create_orgs_heap in Horgs as ->; injection Hrun as <- <-;
      (split; [done|]); intros result [= <-].
    destruct orgs as [|? [|? ?]]; cbn; repeat constructor.
    apply Forall_forall. intros source Hin.
    apply list_elem_of_In, in_map_iff in Hin as (item & <- & _). done.
  - intros spec -> Hne.
    assert (Htrue : truthy (Some spec) = true).
    { cbn. by apply bool_decide_eq_true_2. }
    rewrite Htrue in Hrun. cbn [default] in Hrun.
    destruct (create_orgs _ _ _ _) as [[e|orgs] h2] eqn:Horgs;
      apply create_orgs_heap in Horgs as ->; injection Hrun as <- <-;
      (split; [done|]);
      (split; [by apply list_lookup_middle|]); intros result [= <-].
    destruct orgs as [|? [|? ?]]; cbn; repeat constructor.
    apply Forall_forall. intros source Hin.
    apply list_elem_of_In, in_map_iff in Hin as (item & <- & _). done.
Qed.

End MessageSourceProperties.

(** With no org at all the result is a [MultiMessageSource] too, over no
    source: a [MultiMessageSource] does not take two or more entries. *)
Lemma create_message_source_of_no_org :
  ¬ (∀ (org_specs : pydict (gmap string value)) replay_spec h sources h',
       NoDup org_specs.*1 →
       create_message_source org_specs replay_spec sample_org_factory h
         = (inr (MultiMessageSource sources), h') →
       (2 ≤ length org_specs)%nat).
Proof.
  intros Hclaim.
  specialize (Hclaim [] None [] [] [] (NoDup_nil_2 (A:=string)) eq_refl).
  cbn in Hclaim. lia.
Qed.

(** The theorem at one org and at two orgs. *)
Lemma create_message_source_single_or_multi_witness :
  (∃ source,
     OrgMessageSource (sample_source "org_name1" None None)
     = OrgMessageSource source) ∧
  (∃ sources,
     MultiMessageSource [sample_source "org_name1" None None;
                         sample_source "org_name2" None None]
     = MultiMessageSource sources) ∧
  (∃ result h',
     create_message_source two_orgs None sample_org_factory []
     = (inr result, h')).
Proof.
  split; [|split].
  - destruct (create_message_source_single_or_multi
                one_org None sample_org_factory [])
      as [Hreturned _]; [vm_decide|].
    destruct (Hreturned (OrgMessageSource (sample_source "org_name1" None None)) [])
      as (sources & _ & Hone & _); [vm_refl|].
    destruct (Hone eq_refl) as (source & _ & Hresult).
    exists source. exact Hresult.
  - destruct (create_message_source_single_or_multi
                two_orgs None sample_org_factory [])
      as [Hreturned _]; [vm_decide|].
    destruct (Hreturned
                (MultiMessageSource [sample_source "org_name1" None None;
                                     sample_source "org_name2" None None]) [])
      as (sources & _ & _ & Hmany); [vm_refl|].
    exists sources. apply Hmany. discriminate.
  - destruct (create_message_source_single_or_multi
                two_orgs None sample_org_factory [])
      as [_ Htotal]; [vm_decide|].
    apply Htotal.
    apply Forall_cons. split; [exists sample_org_spec; vm_refl|].
    apply Forall_cons. split; [exists sample_org_spec; vm_refl|apply Forall_nil_2].
Defined.

(** The theorem without a replay specification and with the one of the
    tests, for two orgs. *)
Lemma create_message_source_replay_witness :
  Forall (λ source : SalesforceOrgMessageSource (gmap string value),
            replay_marker_storage source = None ∧ replay_fallback source = None)
         (sources_of (MultiMessageSource
                        [sample_source "org_name1" None None;
                         sample_source "org_name2" None None])) ∧
  Forall (λ source : SalesforceOrgMessageSource (gmap string value),
            replay_marker_storage source = Some (length ([] : heap)) ∧
            replay_fallback source = Some ALL_EVENTS)
         (sources_of (MultiMessageSource
                        [sample_source "org_name1" (Some 0%nat) (Some ALL_EVENTS);
                         sample_source "org_name2" (Some 0%nat) (Some ALL_EVENTS)])).
Proof.
  split.
  - destruct (create_message_source_replay
                two_orgs None sample_org_factory []
                (inr (MultiMessageSource
                        [sample_source "org_name1" None None;
                         sample_source "org_name2" None None]))
                [])
      as [Habsent _]; [vm_refl|].
    destruct Habsent as [_ Hsources]; [by left|].
    exact (Hsources _ eq_refl).
  - destruct (create_message_source_replay
                two_orgs (Some sample_replay_spec) sample_org_factory []
                (inr (MultiMessageSource
                        [sample_source "org_name1" (Some 0%nat) (Some ALL_EVENTS);
                         sample_source "org_name2" (Some 0%nat) (Some ALL_EVENTS)]))
                [mkRedisReplayStorage sample_replay_spec])
      as [_ Hgiven]; [vm_refl|].
    destruct (Hgiven sample_replay_spec eq_refl) as (_ & _ & Hsources); [vm_decide|].
    exact (Hsources _ eq_refl).
Defined.

(** C4, on the code. For the source named ["name"] and the replay
    specifications of [TestCreateReplayStorage], [create_message_source]
    constructs the one replay storage with the specification as it is:
    its [key_prefix] argument is ["prefix"], not ["prefix:name"], and
    without a prefix in the specification it is left out, not ["name"]. *)
Theorem create_message_source_key_prefix :
  (∃ source storage,
     create_message_source [("name", sample_org_spec)] (Some sample_replay_spec)
                           sample_org_factory []
       = (inr (OrgMessageSource source), [storage]) ∧
     replay_marker_storage source = Some 0%nat ∧
     kwargs storage !! "key_prefix" = Some (VStr "prefix") ∧
     kwargs storage !! "key_prefix" ≠ Some (VStr "prefix:name")) ∧
  (∃ source storage,
     create_message_source [("name", sample_org_spec)]
                           (Some sample_replay_spec_without_prefix)
                           sample_org_factory []
       = (inr (OrgMessageSource source), [storage]) ∧
     replay_marker_storage source = Some 0%nat ∧
     kwargs storage !! "key_prefix" = None ∧
     kwargs storage !! "key_prefix" ≠ Some (VStr "name")).
Proof.
  assert (Hprefix : sample_replay_spec !! "key_prefix" = Some (VStr "prefix"))
    by vm_refl.
  assert (Hnone : sample_replay_spec_without_prefix !! "key_prefix" = None)
    by vm_refl.
  split.
  - exists (sample_source "name" (Some 0%nat) (Some ALL_EVENTS)),
           (mkRedisReplayStorage sample_replay_spec).
    split; [vm_refl|]. split; [reflexivity|]. cbn [kwargs]. rewrite Hprefix.
    split; [reflexivity|discriminate].
  - exists (sample_source "name" (Some 0%nat) (Some ALL_EVENTS)),
           (mkRedisReplayStorage sample_replay_spec_without_prefix).
    split; [vm_refl|]. split; [reflexivity|]. cbn [kwargs]. rewrite Hnone.
    split; [reflexivity|discriminate].
Qed.

(** ** The completion handler *)

Section CompletionHandler.

Import Application.

Context {Route : Type}.

(** C5. For a forwarding task that finished with a [MessageSinkError]:
    with [ignore_sink_errors] set the handler raises nothing, appends one
    ERROR record to the log and takes the task, and no other task, out of
    the in-flight set; with [ignore_sink_errors] unset it raises that
    same [MessageSinkError].  An exception of another type is raised
    again whatever the flag is. *)
Theorem forward_message_done_on_sink_error
    (app : Application) (future : nat) (msg : string) :
  let done := _forward_message_done app future
                (Raised (Route:=Route) (MessageSinkError msg)) in
  (ignore_sink_errors app = true →
   done.1 = None ∧
   log done.2 = log app ++ [mkLogRecord ERROR (_forwarding_tasks app !! future)] ∧
   _forwarding_tasks done.2 !! future = None ∧
   (∀ other, other ≠ future →
             _forwarding_tasks done.2 !! other = _forwarding_tasks app !! other)) ∧
  (ignore_sink_errors app = false →
   done.1 = Some (MessageSinkError msg)) ∧
  (∀ type_name,
     (_forward_message_done app future
        (Raised (Route:=Route) (OtherError type_name))).1
     = Some (OtherError type_name)).
Proof.
  cbn zeta. unfold _forward_message_done. split_and!.
  - intros ->. cbn. split_and!; [done|done|apply lookup_delete_eq|].
    intros other Hother. by apply lookup_delete_ne.
  - by intros ->.
  - done.
Qed.

End CompletionHandler.

(** The theorem at the task of [test_forward_message_done_on_sink_error]
    and at the one of [test_forward_message_done_on_sink_error_not_ignored]. *)
Lemma forward_message_done_on_sink_error_witness :
  (Application._forward_message_done
     (Application.mkApplication true
        {[ 7%nat := Application.mkSourceMessagePair "source" "channel" 12 ]} [])
     7%nat (Application.Raised (Route:=unit) (Application.MessageSinkError "message"))).1
  = None ∧
  (Application._forward_message_done
     (Application.mkApplication false
        {[ 7%nat := Application.mkSourceMessagePair "source" "channel" 12 ]} [])
     7%nat (Application.Raised (Route:=unit) (Application.MessageSinkError "message"))).1
  = Some (Application.MessageSinkError "message").
Proof.
  split.
  - apply (forward_message_done_on_sink_error (Route:=unit)
             (Application.mkApplication true
                {[ 7%nat := Application.mkSourceMessagePair "source" "channel" 12 ]} [])
             7%nat "message").
    reflexivity.
  - apply (forward_message_done_on_sink_error (Route:=unit)
             (Application.mkApplication false
                {[ 7%nat := Application.mkSourceMessagePair "source" "channel" 12 ]} [])
             7%nat "message").
    reflexivity.
Defined.

(** * Further properties of the schemas *)

(** ** The required-fields checks, exactly *)

Lemma unique_id_inter (data : gmap string value) :
  dom data ∩ PushTopicSchema.unique_id_fields ≠ ∅ ↔
  "Id" ∈ dom data ∨ "Name" ∈ dom data.
Proof.
  unfold PushTopicSchema.unique_id_fields. split.
  - intros [key Hkey]%set_choose_L.
    apply elem_of_intersection in Hkey as [Hin Hid].
    apply elem_of_union in Hid as [Hid | Hid];
      apply elem_of_singleton in Hid as ->; auto.
  - intros [Hin | Hin] Hempty.
    + apply (not_elem_of_empty (C:=gset string) "Id"). rewrite <- Hempty.
      apply elem_of_intersection. split; [done|]. set_solver.
    + apply (not_elem_of_empty (C:=gset string) "Name"). rewrite <- Hempty.
      apply elem_of_intersection. split; [done|]. set_solver.
Qed.

(** [PushTopicSchema.check_required_fileds] returns normally exactly on a
    single [Id] or [Name] and on two or more fields with [Name],
    [ApiVersion] and [Query] among them; so [Id] with [Name] alone, or
    [Id] with a full definition missing one of the three, raises. *)
Theorem push_topic_required_fields_iff (data : gmap string value) :
  PushTopicSchema.check_required_fileds data = None ↔
  (size data = 1%nat ∧ ("Id" ∈ dom data ∨ "Name" ∈ dom data)) ∨
  ((2 ≤ size data)%nat ∧
   "Name" ∈ dom data ∧ "ApiVersion" ∈ dom data ∧ "Query" ∈ dom data).
Proof.
  unfold PushTopicSchema.check_required_fileds.
  case_bool_decide as Hone.
  - case_bool_decide as Hinter.
    + split; [done|]. intros [[_ Hid] | [Hsize _]]; [|lia].
      apply unique_id_inter in Hid. by destruct Hid.
    + split; [|done]. intros _. left. split; [done|]. by apply unique_id_inter.
  - case_bool_decide as Hmany.
    + case_bool_decide as Hreq.
      * split; [done|]. intros [[Hsize _] | (_ & Hname & Hversion & Hquery)]; [lia|].
        destruct Hreq. unfold PushTopicSchema.required_fields. set_solver.
      * split; [|done]. intros _. right. split; [lia|].
        assert (Hin : ∀ k, k ∈ PushTopicSchema.required_fields → k ∈ dom data).
        { intros k Hk. rewrite <- Hreq in Hk.
          by apply elem_of_intersection in Hk as [? _]. }
        split_and!; apply Hin; unfold PushTopicSchema.required_fields; set_solver.
    + split; [done|]. intros [[Hsize _] | [Hsize _]]; lia.
Qed.

(** [StreamingChannelSchema.check_required_fileds] returns normally
    exactly on a single [Id] or [Name] and on any two or more fields: of a
    specification with several fields it asks nothing. *)
Theorem streaming_channel_required_fields_iff (data : gmap string value) :
  StreamingChannelSchema.check_required_fileds data = None ↔
  (size data = 1%nat ∧ ("Id" ∈ dom data ∨ "Name" ∈ dom data)) ∨
  (2 ≤ size data)%nat.
Proof.
  unfold StreamingChannelSchema.check_required_fileds.
  case_bool_decide as Hone.
  - case_bool_decide as Hinter.
    + split; [done|]. intros [[_ Hid] | Hsize]; [|lia].
      apply unique_id_inter in Hid. by destruct Hid.
    + split; [|done]. intros _. left. split; [done|]. by apply unique_id_inter.
  - case_bool_decide as Hempty.
    + split; [done|]. subst data. rewrite map_size_empty. intros [[? _] | ?]; lia.
    + split; [|done]. intros _. right.
      apply map_size_non_empty_iff in Hempty. lia.
Qed.

(** ** The API version check, exactly *)




(** ** The data of a loaded input *)

Lemma unmarshal_fold_lookup_other original_data (decls : list (string * field))
    (key : string) :
  Forall (λ decl, attribute decl.2 = None) decls →
  key ∉ decls.*1 →
  ∀ acc, (foldl (unmarshal_field original_data) acc decls).1 !! key = acc.1 !! key.
Proof.
  induction 1 as [|decl decls Hattr _ IH]; intros Hkey acc; cbn [foldl]; [done|].
  cbn in Hkey. apply not_elem_of_cons in Hkey as [Hne Hkey].
  rewrite (IH Hkey). unfold unmarshal_field.
  destruct (deserialize_field _ _); cbn [fst]; [done| |done].
  rewrite Hattr. cbn [default]. by rewrite lookup_insert_ne.
Qed.

(** Without [attribute=], the data holds under each declared name the
    deserialised value of the field, if it has one. *)
Lemma unmarshal_fold_lookup original_data (decls : list (string * field))
    (key : string) (f : field) :
  NoDup decls.*1 →
  Forall (λ decl, attribute decl.2 = None) decls →
  (key, f) ∈ decls →
  ∀ acc, (foldl (unmarshal_field original_data) acc decls).1 !! key
         = match deserialize_field f (original_data !! key) with
           | Value v => Some v
           | _ => acc.1 !! key
           end.
Proof.
  intros Hdup Hattr. revert Hdup.
  induction Hattr as [|decl decls Hattr Hattrs IH]; intros Hdup Hin acc.
  - by apply elem_of_nil in Hin.
  - cbn in Hdup. apply NoDup_cons in Hdup as [Hfresh Hdup]. cbn [foldl].
    apply elem_of_cons in Hin as [<- | Hin].
    + rewrite (unmarshal_fold_lookup_other _ _ _ Hattrs Hfresh).
      unfold unmarshal_field. cbn [fst snd] in *.
      destruct (deserialize_field _ _); cbn [fst]; [done| |done].
      rewrite Hattr. cbn [default fst]. by rewrite lookup_insert_eq.
    + rewrite (IH Hdup Hin).
      assert (Hne : decl.1 ≠ key).
      { intros <-. apply Hfresh. apply list_elem_of_fmap. by exists (decl.1, f). }
      destruct (deserialize_field f _); [|done|]; unfold unmarshal_field;
        destruct (deserialize_field decl.2 _); cbn [fst]; try done;
        rewrite Hattr; cbn [default]; by rewrite lookup_insert_ne.
Qed.

(** The loaded data of a strict schema without [attribute=], key by key. *)
Lemma strict_load_lookup decls own original_data data key f :
  NoDup decls.*1 →
  Forall (λ decl, attribute decl.2 = None) decls →
  (key, f) ∈ decls →
  load (StrictSchema decls own) original_data = Loaded data →
  match original_data !! key with
  | Some raw => ∃ v, deserialize_field f (Some raw) = Value v ∧ data !! key = Some v
  | None => data !! key = None
  end.
Proof.
  intros Hdup Hattr Hin Hload.
  apply load_Loaded_inv in Hload as (-> & Hfields & _).
  cbn [declared StrictSchema] in Hfields.
  rewrite Forall_forall in Hfields. specialize (Hfields _ Hin). cbn in Hfields.
  unfold unmarshal. cbn [declared StrictSchema].
  rewrite (unmarshal_fold_lookup _ _ _ _ Hdup Hattr Hin). cbn [fst].
  destruct (original_data !! key) as [raw|] eqn:Hraw.
  - destruct (deserialize_field f (Some raw)) as [|v|e] eqn:Hd.
    + by apply deserialize_field_Absent in Hd.
    + by exists v.
    + by destruct (Hfields e).
  - destruct (deserialize_field f None) as [|v|e] eqn:Hd; [done| |done].
    by apply deserialize_field_Value in Hd as [? ?].
Qed.

Lemma field_set_elem_of (s : Schema) (key : string) :
  key ∈ field_set s → ∃ f, (key, f) ∈ declared s.
Proof.
  unfold field_set. rewrite elem_of_list_to_set.
  intros ([k f] & -> & Hin)%list_elem_of_fmap. by exists f.
Qed.

(** A strict schema whose fields have no [attribute=] and deserialise
    every accepted value to itself loads an input unchanged. *)
Lemma strict_load_identity decls own original_data data :
  NoDup decls.*1 →
  Forall (λ decl, attribute decl.2 = None) decls →
  Forall (λ decl, ∀ raw v, deserialize_field decl.2 (Some raw) = Value v → v = raw)
         decls →
  load (StrictSchema decls own) original_data = Loaded data →
  data = original_data.
Proof.
  intros Hdup Hattr Hid Hload.
  pose proof (strict_load_dom _ _ _ _ Hattr Hload) as Hdom.
  apply map_eq. intros key.
  destruct (original_data !! key) as [raw|] eqn:Hraw.
  - assert (Hdeclared : ∃ f, (key, f) ∈ decls).
    { pose proof Hload as (_ & _ & Hvalid)%load_Loaded_inv.
      cbn [schema_validators StrictSchema] in Hvalid.
      apply Forall_cons in Hvalid as [Hknown%check_unknown_fields_None_inv _].
      apply (field_set_elem_of (StrictSchema decls own)), Hknown.
      apply elem_of_dom. by exists raw. }
    destruct Hdeclared as [f Hin].
    pose proof (strict_load_lookup _ _ _ _ _ _ Hdup Hattr Hin Hload) as Hkey.
    rewrite Hraw in Hkey. destruct Hkey as (v & Hv & ->).
    rewrite Forall_forall in Hid. by rewrite (Hid _ Hin raw v Hv).
  - apply not_elem_of_dom. rewrite Hdom. by apply not_elem_of_dom.
Qed.

Lemma string_field_identity (f : field) :
  deserialize f = deserialize fields.String →
  ∀ raw v, deserialize_field f (Some raw) = Value v → v = raw.
Proof.
  intros Hclass raw v. unfold deserialize_field. rewrite Hclass.
  destruct raw as [|b|z|x|s|l|d]; cbn; repeat case_match; congruence.
Qed.

Lemma entry_string (x y : value) :
  fields.entry fields.String x = Some y → y = x ∧ ∃ s, x = VStr s.
Proof.
  unfold fields.entry.
  destruct x as [|b|z|f|s|l|d]; cbn; try done.
  intros [= <-]. split; [done|by exists s].
Qed.

Lemma dict_of_strings_field (f : field) (raw v : value) :
  deserialize f = deserialize (fields.Dict (Some fields.String)) →
  validators f = [] →
  deserialize_field f (Some raw) = Value v →
  v = raw ∧
  (raw = VNone ∨
   ∃ d, raw = VDict d ∧ ∀ k x, d !! k = Some x → ∃ s, x = VStr s).
Proof.
  intros Hclass Hvalid. unfold deserialize_field. rewrite Hclass, Hvalid.
  destruct raw as [|b|z|x|s|l|d]; cbn [deserialize fields.Dict forallb]; try done.
  - destruct (allow_none f); [|done]. intros [= <-]. split; [done|by left].
  - case_bool_decide as Hall; [|done]. intros [= <-].
    assert (Hsame : omap (fields.entry fields.String) d = d).
    { apply map_eq. intros k. rewrite lookup_omap.
      destruct (d !! k) as [x|] eqn:Hx; [|done]. cbn.
      destruct (Hall k x Hx) as [y Hy]. rewrite Hy.
      by apply entry_string in Hy as [-> _]. }
    rewrite Hsame. split; [done|]. right. exists d. split; [done|].
    intros k x Hx. destruct (Hall k x Hx) as [y Hy].
    by apply entry_string in Hy as [_ ?].
Qed.

Lemma streaming_channel_names : NoDup StreamingChannelSchema.fields.*1.
Proof. vm_decide. Qed.

Lemma route_names : NoDup RouteSchema.fields.*1.
Proof. vm_decide. Qed.

Lemma route_attributes :
  Forall (λ decl : string * field, attribute decl.2 = None) RouteSchema.fields.
Proof. repeat constructor. Qed.

(** Round trip: what [StreamingChannelSchema] and [RouteSchema] load is
    the input itself; no key is dropped, added or renamed and no value is
    converted. *)
Theorem load_returns_the_input (s : Schema) (original_data data : gmap string value) :
  s = StreamingChannelSchema.schema ∨ s = RouteSchema.schema →
  load s original_data = Loaded data →
  data = original_data.
Proof.
  intros [-> | ->].
  - apply strict_load_identity;
      [apply streaming_channel_names|apply streaming_channel_attributes|].
    repeat constructor; by apply string_field_identity.
  - apply strict_load_identity; [apply route_names|apply route_attributes|].
    repeat constructor; try by apply string_field_identity.
    intros raw v Hv. by apply dict_of_strings_field in Hv as [-> _].
Qed.

Lemma load_returns_the_input_witness :
  route_of "b1" "e1" "k.def" = route_of "b1" "e1" "k.def".
Proof.
  apply (load_returns_the_input RouteSchema.schema); [by right|vm_refl].
Defined.

(** A route is loaded with [properties] only if it is null or a mapping
    whose values are all strings. *)
Theorem route_schema_properties (original_data data : gmap string value) (raw : value) :
  load RouteSchema.schema original_data = Loaded data →
  original_data !! "properties" = Some raw →
  raw = VNone ∨
  ∃ d, raw = VDict d ∧ ∀ k x, d !! k = Some x → ∃ s, x = VStr s.
Proof.
  intros Hload Hraw.
  assert (Hin : ("properties",
                 with_allow_none (fields.Dict (Some fields.String)))
                ∈ RouteSchema.fields).
  { declared_field. }
  pose proof (strict_load_lookup _ _ _ _ _ _ route_names route_attributes Hin Hload)
    as Hkey.
  rewrite Hraw in Hkey. destruct Hkey as (v & Hv & _).
  by apply dict_of_strings_field in Hv as [_ ?].
Qed.

Lemma route_schema_properties_witness :
  VDict {[ "content_type" := VStr "application/json" ]} = VNone ∨
  ∃ d, VDict {[ "content_type" := VStr "application/json" ]} = VDict d ∧
       ∀ k x, d !! k = Some x → ∃ s, x = VStr s.
Proof.
  apply (route_schema_properties
           (<[ "properties" := VDict {[ "content_type" := VStr "application/json" ]} ]>
              (route_of "b1" "e1" "k.def"))
           (<[ "properties" := VDict {[ "content_type" := VStr "application/json" ]} ]>
              (route_of "b1" "e1" "k.def"))); vm_refl.
Defined.

(** ** PushTopic specifications *)

Section PushTopic.

Variables (py_float : value → option float) (py_bool : value → option bool).

Lemma push_topic_names : NoDup (PushTopicSchema.fields py_float py_bool).*1.
Proof. vm_decide. Qed.

Lemma push_topic_attributes :
  Forall (λ decl : string * field, attribute decl.2 = None)
         (PushTopicSchema.fields py_float py_bool).
Proof. repeat constructor. Qed.

Lemma float_field_value (raw : option value) (x : value) :
  deserialize_field
    (with_validate (validate.Range 20.0 42.0) (fields.Float py_float)) raw
  = Value x →
  ∃ v, x = VFloat v ∧ validate.Range 20.0 42.0 (VFloat v) = true.
Proof.
  destruct raw as [raw|]; [|done]. unfold deserialize_field.
  cbn [allow_none deserialize validators with_validate fields.Float app].
  destruct raw; try done;
    (destruct (py_float _) as [v|]; cbn [fmap option_fmap option_map]; [|done]);
    cbn [forallb];
    (destruct (validate.Range 20.0 42.0 (VFloat v)) eqn:Hrange; cbn [andb]; [|done]);
    intros [= <-]; by exists v.
Qed.

(** The [ApiVersion] of the unmarshalled data is a float, whatever the
    input is. *)
Lemma push_topic_unmarshal_version (original_data : gmap string value) (x : value) :
  (unmarshal (PushTopicSchema.schema py_float py_bool) original_data).1
    !! "ApiVersion" = Some x →
  ∃ v, x = VFloat v ∧ validate.Range 20.0 42.0 (VFloat v) = true.
Proof.
  unfold unmarshal.
  cbn [declared PushTopicSchema.schema StrictSchema].
  rewrite (unmarshal_fold_lookup _ _ "ApiVersion"
             (with_validate (validate.Range 20.0 42.0) (fields.Float py_float))
             push_topic_names push_topic_attributes).
  - cbn [fst]. rewrite lookup_empty.
    destruct (deserialize_field _ _) as [|v|e] eqn:Hd; [done| |done].
    intros [= <-]. by eapply float_field_value.
  - declared_field.
Qed.

Lemma push_topic_field_accepted (original_data data : gmap string value)
    (key : string) (f : field) (raw : value) :
  (key, f) ∈ PushTopicSchema.fields py_float py_bool →
  load (PushTopicSchema.schema py_float py_bool) original_data = Loaded data →
  original_data !! key = Some raw →
  ∀ e, deserialize_field f (Some raw) ≠ Error e.
Proof.
  intros Hin Hload Hraw e He.
  pose proof (strict_load_lookup _ _ _ _ _ _ push_topic_names push_topic_attributes
                Hin Hload) as Hkey.
  rewrite Hraw in Hkey. destruct Hkey as (v & Hv & _). congruence.
Qed.

(** A PushTopic specification is loaded only if the string fields it
    gives keep to their limits: [Id] is not empty, [Name] has 1 to 25
    characters, [Query] 1 to 1300, [Description] at most 400,
    [NotifyForFields] and [NotifyForOperations] are one of their four
    choices; and the [ApiVersion] of the loaded data is a float that is
    neither below 20.0 nor above 42.0. *)
Theorem push_topic_schema_fields (original_data data : gmap string value) :
  load (PushTopicSchema.schema py_float py_bool) original_data = Loaded data →
  (∀ raw, original_data !! "Id" = Some raw →
          ∃ s, raw = VStr s ∧ (1 ≤ String.length s)%nat) ∧
  (∀ raw, original_data !! "Name" = Some raw →
          ∃ s, raw = VStr s ∧ (1 ≤ String.length s ≤ 25)%nat) ∧
  (∀ raw, original_data !! "Query" = Some raw →
          ∃ s, raw = VStr s ∧ (1 ≤ String.length s ≤ 1300)%nat) ∧
  (∀ raw, original_data !! "Description" = Some raw →
          ∃ s, raw = VStr s ∧ (String.length s ≤ 400)%nat) ∧
  (∀ raw, original_data !! "NotifyForFields" = Some raw →
          ∃ s, raw = VStr s ∧ s ∈ ["All"; "Referenced"; "Select"; "Where"]) ∧
  (∀ raw, original_data !! "NotifyForOperations" = Some raw →
          ∃ s, raw = VStr s ∧ s ∈ ["All"; "Create"; "Extended"; "Update"]) ∧
  (∀ x, data !! "ApiVersion" = Some x →
        ∃ v, x = VFloat v ∧ PrimFloat.ltb v 20.0 = false
                          ∧ PrimFloat.ltb 42.0 v = false).
Proof.
  intros Hload.
  assert (Hstring : ∀ key f raw,
            (key, f) ∈ PushTopicSchema.fields py_float py_bool →
            deserialize f = deserialize fields.String → allow_none f = false →
            original_data !! key = Some raw →
            ∃ s, raw = VStr s ∧ forallb (λ p, p (VStr s)) (validators f) = true).
  { intros key f raw Hin Hclass Hnone Hraw.
    apply string_field_accepted; [done..|].
    by eapply push_topic_field_accepted. }
  split_and!.
  - intros raw Hraw.
    edestruct (Hstring "Id") as (s & -> & Hvalid); [declared_field|done..|].
    exists s. split; [done|]. cbn in Hvalid. rewrite andb_true_r in Hvalid.
    by apply Length_min.
  - intros raw Hraw.
    edestruct (Hstring "Name") as (s & -> & Hvalid); [declared_field|done..|].
    exists s. split; [done|]. cbn in Hvalid. rewrite andb_true_r in Hvalid.
    by apply Length_bounds.
  - intros raw Hraw.
    edestruct (Hstring "Query") as (s & -> & Hvalid); [declared_field|done..|].
    exists s. split; [done|]. cbn in Hvalid. rewrite andb_true_r in Hvalid.
    by apply Length_bounds.
  - intros raw Hraw.
    edestruct (Hstring "Description") as (s & -> & Hvalid); [declared_field|done..|].
    exists s. split; [done|]. cbn in Hvalid. rewrite andb_true_r in Hvalid.
    by apply Length_max.
  - intros raw Hraw.
    edestruct (Hstring "NotifyForFields") as (s & -> & Hvalid); [declared_field|done..|].
    exists s. split; [done|]. cbn in Hvalid. rewrite andb_true_r in Hvalid.
    by apply bool_decide_eq_true in Hvalid.
  - intros raw Hraw.
    edestruct (Hstring "NotifyForOperations") as (s & -> & Hvalid); [declared_field|done..|].
    exists s. split; [done|]. cbn in Hvalid. rewrite andb_true_r in Hvalid.
    by apply bool_decide_eq_true in Hvalid.
  - intros x Hx. apply load_Loaded_inv in Hload as (-> & _ & _).
    apply push_topic_unmarshal_version in Hx as (v & -> & Hrange).
    exists v. split; [done|]. cbn in Hrange.
    apply andb_prop in Hrange as [Hlo Hhi].
    by apply negb_true_iff in Hlo, Hhi.
Qed.

End PushTopic.

Lemma push_topic_schema_fields_witness :
  (∃ s, VStr "t" = VStr s ∧ (1 ≤ String.length s ≤ 25)%nat) ∧
  (∃ v, VFloat 30.0 = VFloat v ∧ PrimFloat.ltb v 20.0 = false
                               ∧ PrimFloat.ltb 42.0 v = false).
Proof.
  destruct (push_topic_schema_fields float_of_float bool_of_bool
              (push_topic 30.0 "Description" (VStr "d"))
              (push_topic 30.0 "Description" (VStr "d")))
    as (_ & Hname & _ & _ & _ & _ & Hversion); [vm_refl|].
  split; [apply Hname|apply Hversion]; vm_refl.
Defined.

(** * Further properties of the factories *)

Section RouterComposition.

Context {E Route Condition : Type}.
Implicit Types (route_factory : gmap string value → E + Route)
               (condition_factory : string → E + Condition).

Lemma create_rule_inr (spec : rule_spec) condition_factory route_factory rule :
  create_rule spec condition_factory route_factory = inr rule →
  condition_factory (condition_spec spec) = inr (condition rule) ∧
  route_factory (route_spec spec) = inr (route rule).
Proof.
  unfold create_rule.
  destruct (condition_factory _) as [e|c]; [done|].
  destruct (route_factory _) as [e|r]; [done|]. by intros [= <-].
Qed.

(** [create_router] over [create_rule], its default rule factory: the
    rules of the router pair, entry by entry and in order, the condition
    built from [condition_spec] with the route built from [route_spec]. *)
Theorem create_router_with_create_rule
    (default_route_spec : option (gmap string value)) (rule_specs : list rule_spec)
    condition_factory route_factory router :
  create_router default_route_spec rule_specs route_factory
    (λ spec, create_rule spec condition_factory route_factory) = inr router →
  Forall2 (λ spec rule,
             condition_factory (condition_spec spec) = inr (condition rule) ∧
             route_factory (route_spec spec) = inr (route rule))
          rule_specs (rules router).
Proof.
  unfold create_router.
  destruct (match default_route_spec with Some _ => _ | None => _ end)
    as [e|default]; [done|].
  destruct (create_rules _ rule_specs) as [e|rules] eqn:Hrules; [done|].
  intros [= <-]. cbn. apply create_rules_inr in Hrules.
  eapply Forall2_impl; [exact Hrules|].
  intros spec rule Hrule. by apply create_rule_inr.
Qed.

(** A rule whose condition cannot be built fails with the error of the
    condition, whatever its route is: the condition is built first. *)
Lemma create_rule_condition_first (spec : rule_spec) condition_factory
    route_factory e :
  condition_factory (condition_spec spec) = inl e →
  create_rule spec condition_factory route_factory = inl e.
Proof. unfold create_rule. by intros ->. Qed.

End RouterComposition.

Section RouterErrors.

Context {E Route Condition Spec : Type}.
Implicit Types (route_factory : gmap string value → E + Route)
               (rule_factory : Spec → E + RoutingRule Route Condition).

Lemma create_rules_first_error rule_factory (built : list Spec) (bad : Spec)
    (rest : list Spec) e :
  Forall (λ spec, ∃ rule, rule_factory spec = inr rule) built →
  rule_factory bad = inl e →
  create_rules rule_factory (built ++ bad :: rest) = inl e.
Proof.
  intros Hbuilt Hbad. induction Hbuilt as [|spec built [rule Hrule] _ IH]; cbn.
  - by rewrite Hbad.
  - by rewrite Hrule, IH.
Qed.

(** The error [create_router] raises: that of the default route when it
    cannot be built, whatever the rules are; otherwise that of the first
    rule that cannot be built, whatever comes after it. *)
Theorem create_router_first_error route_factory rule_factory
    (default_route_spec : option (gmap string value)) e :
  (∀ spec rule_specs,
     default_route_spec = Some spec → route_factory spec = inl e →
     create_router default_route_spec rule_specs route_factory rule_factory
     = inl e) ∧
  (∀ built bad rest,
     (∀ spec, default_route_spec = Some spec →
              ∃ route, route_factory spec = inr route) →
     Forall (λ spec, ∃ rule, rule_factory spec = inr rule) built →
     rule_factory bad = inl e →
     create_router default_route_spec (built ++ bad :: rest)
                   route_factory rule_factory
     = inl e).
Proof.
  unfold create_router. split.
  - by intros spec rule_specs -> ->.
  - intros built bad rest Hdefault Hbuilt Hbad.
    rewrite (create_rules_first_error _ _ _ _ _ Hbuilt Hbad).
    destruct default_route_spec as [spec|]; [|done].
    by destruct (Hdefault spec eq_refl) as [route ->].
Qed.

End RouterErrors.

(** The two theorems at the sample rules: with the default route of
    scenario S2, and with an empty default route, which the sample route
    factory refuses. *)
Lemma create_router_with_create_rule_witness :
  Forall2 (λ spec rule,
             inr (condition_spec spec) = inr (A:=string) (condition rule) ∧
             sample_route_factory (route_spec spec) = inr (route rule))
          sample_rule_specs (rules sample_router).
Proof.
  apply (create_router_with_create_rule
           (Some (route_of "b1" "e1" "k.def")) sample_rule_specs
           inr sample_route_factory sample_router).
  vm_refl.
Defined.

Lemma create_router_first_error_witness :
  create_router (Some ∅) sample_rule_specs sample_route_factory sample_rule_factory
  = inl "TypeError" ∧
  create_router None (sample_rule_specs ++ mkRuleSpec "source == 'orgC'" ∅ :: [])
                sample_route_factory sample_rule_factory
  = inl "TypeError".
Proof.
  destruct (create_router_first_error sample_route_factory sample_rule_factory
              (Some ∅) "TypeError") as [Hdefault _].
  destruct (create_router_first_error sample_route_factory sample_rule_factory
              None "TypeError") as [_ Hrule].
  split.
  - apply (Hdefault ∅ sample_rule_specs); [reflexivity|vm_refl].
  - apply Hrule; [done| |vm_refl].
    apply Forall_cons. split.
    { exists (mkRoutingRule "source == 'orgA'" (route_of "b1" "e1" "k.a")). vm_refl. }
    apply Forall_cons. split; [|apply Forall_nil_2].
    exists (mkRoutingRule "source == 'orgB'" (route_of "b1" "e1" "k.b")). vm_refl.
Defined.

Section SourceErrors.

Context {E Org : Type}.
Implicit Types (org_factory : gmap string value → E + Org)
               (org_specs : pydict (gmap string value)).

Lemma create_orgs_first_error org_factory (built : pydict (gmap string value))
    (name : string) (spec : gmap string value) rest e :
  Forall (λ item, ∃ org, org_factory item.2 = inr org) built →
  org_factory spec = inl e →
  ∀ acc h, create_orgs org_factory (built ++ (name, spec) :: rest) acc h
           = (inl e, h).
Proof.
  intros Hbuilt Hbad.
  induction Hbuilt as [|[n s] built [org Horg] _ IH]; intros acc h; cbn.
  - unfold bind, lift. by rewrite Hbad.
  - unfold bind, lift. cbn in Horg. rewrite Horg. apply IH.
Qed.

(** When an org cannot be created, [create_message_source] raises the
    error of the first such org, whatever orgs come after it; the replay
    storage of a non-empty [replay_spec] has been constructed by then,
    and nothing else has. *)
Theorem create_message_source_first_error org_factory
    (built : pydict (gmap string value)) (name : string)
    (spec : gmap string value) rest replay_spec e (h : heap) :
  Forall (λ item, ∃ org, org_factory item.2 = inr org) built →
  org_factory spec = inl e →
  create_message_source (built ++ (name, spec) :: rest) replay_spec org_factory h
  = (inl e,
     if truthy replay_spec
     then h ++ [mkRedisReplayStorage (default ∅ replay_spec)]
     else h).
Proof.
  intros Hbuilt Hbad. rewrite create_message_source_unfold. cbn zeta.
  by rewrite (create_orgs_first_error _ _ _ _ _ _ Hbuilt Hbad).
Qed.

End SourceErrors.

(** The theorem at the two sample orgs followed by an org with an empty
    specification, which the sample org factory refuses, with the replay
    specification of the tests. *)
Lemma create_message_source_first_error_witness :
  create_message_source (two_orgs ++ ("org_name3", ∅) :: [])
                        (Some sample_replay_spec) sample_org_factory []
  = (inl "TypeError",
     if truthy (Some sample_replay_spec)
     then [] ++ [mkRedisReplayStorage (default ∅ (Some sample_replay_spec))]
     else []).
Proof.
  apply (create_message_source_first_error sample_org_factory two_orgs
           "org_name3" ∅ [] (Some sample_replay_spec) "TypeError" []).
  - apply Forall_cons. split; [exists sample_org_spec; vm_refl|].
    apply Forall_cons. split; [exists sample_org_spec; vm_refl|apply Forall_nil_2].
  - vm_refl.
Defined.

Section Sinks.

Context {E Broker Sink : Type}.
Implicit Types (broker_factory : gmap string value → E + Broker)
               (broker_sink_factory : Broker → E + Sink).

Lemma comprehension_inr {V W} (f : V → E + W) (d : pydict V) :
  ∀ acc result,
    NoDup (acc.*1 ++ d.*1) →
    comprehension f d acc = inr result →
    ∃ new, result = acc ++ new ∧
           Forall2 (λ item made, made.1 = item.1 ∧ f item.2 = inr made.2) d new.
Proof.
  induction d as [|[name v] rest IH]; intros acc result Hdup; cbn.
  - intros [= <-]. exists []. by rewrite app_nil_r.
  - destruct (f v) as [e|w] eqn:Hw; [done|].
    intros Hrest. cbn in Hdup.
    assert (Hfresh : name ∉ acc.*1).
    { apply NoDup_app in Hdup as (_ & Hdisjoint & _).
      intros Hin. apply (Hdisjoint name Hin). by left. }
    rewrite (setitem_fresh _ _ _ Hfresh) in Hrest.
    apply IH in Hrest as (new & -> & Hnew).
    + exists ((name, w) :: new). split; [by rewrite <- app_assoc|].
      by constructor.
    + rewrite fmap_app. cbn. by rewrite <- app_assoc.
Qed.

Lemma comprehension_first_error {V W} (f : V → E + W) (built : pydict V)
    (name : string) (v : V) rest e :
  Forall (λ item, ∃ w, f item.2 = inr w) built →
  f v = inl e →
  ∀ acc, comprehension f (built ++ (name, v) :: rest) acc = inl e.
Proof.
  intros Hbuilt Hbad.
  induction Hbuilt as [|[n x] built [w Hw] _ IH]; intros acc; cbn.
  - by rewrite Hbad.
  - cbn in Hw. rewrite Hw. apply IH.
Qed.

Lemma Forall2_names {V W} (R : V → W → Prop) (d : pydict V) (made : pydict W) :
  Forall2 (λ item x, x.1 = item.1 ∧ R item.2 x.2) d made → made.*1 = d.*1.
Proof.
  induction 1 as [|item x d made [Hname _] _ IH]; cbn; [done|].
  by rewrite Hname, IH.
Qed.

(** [create_message_sink] returns a [MultiMessageSink], also for a single
    broker, with one sink per entry of [broker_specs], under the name of
    the entry and in the order of the entries, each built by
    [broker_sink_factory] from the broker [broker_factory] made of the
    entry. *)
Theorem create_message_sink_spec (broker_specs : pydict (gmap string value))
    broker_factory broker_sink_factory (sink : MultiMessageSink Sink) :
  NoDup broker_specs.*1 →
  create_message_sink broker_specs broker_factory broker_sink_factory = inr sink →
  (sinks sink).*1 = broker_specs.*1 ∧
  Forall2 (λ item made,
             made.1 = item.1 ∧
             ∃ broker, broker_factory item.2 = inr broker ∧
                       broker_sink_factory broker = inr made.2)
          broker_specs (sinks sink).
Proof.
  intros Hdup. unfold create_message_sink.
  destruct (comprehension broker_factory _ _) as [e|brokers] eqn:Hbrokers; [done|].
  destruct (comprehension broker_sink_factory _ _) as [e|made] eqn:Hsinks; [done|].
  intros [= <-]. cbn [sinks].
  apply comprehension_inr in Hbrokers as (brokers' & -> & Hbrokers); [|done].
  cbn [app] in Hsinks.
  pose proof (Forall2_names (λ v w, broker_factory v = inr w) _ _ Hbrokers) as Hnames.
  apply comprehension_inr in Hsinks as (made' & -> & Hsinks);
    [|cbn; by rewrite Hnames].
  cbn [app].
  pose proof (Forall2_names (λ v w, broker_sink_factory v = inr w) _ _ Hsinks)
    as Hnames'.
  split; [by rewrite Hnames', Hnames|].
  clear Hdup Hnames Hnames'. revert made' Hsinks.
  induction Hbrokers as [|item b specs brokers [Hname Hbroker] _ IH];
    intros made' Hsinks.
  - apply Forall2_nil_inv_l in Hsinks as ->. constructor.
  - apply Forall2_cons_inv_l in Hsinks as (x & made & [Hx Hsink] & Hsinks & ->).
    constructor; [|by apply IH].
    split; [by rewrite Hx|]. by exists b.2.
Qed.

(** When a broker cannot be created, [create_message_sink] raises the
    error of the first such broker and no sink factory decides
    otherwise: the brokers are all created before the first sink. *)
Theorem create_message_sink_broker_error broker_factory broker_sink_factory
    (built : pydict (gmap string value)) (name : string)
    (params : gmap string value) rest e :
  Forall (λ item, ∃ broker, broker_factory item.2 = inr broker) built →
  broker_factory params = inl e →
  create_message_sink (built ++ (name, params) :: rest)
                      broker_factory broker_sink_factory
  = inl e.
Proof.
  intros Hbuilt Hbad. unfold create_message_sink.
  by rewrite (comprehension_first_error _ _ _ _ _ _ Hbuilt Hbad).
Qed.

End Sinks.

(** The two theorems at one broker, and at a second broker the sample
    factory refuses. *)
Lemma create_message_sink_spec_witness :
  (sinks (mkMultiMessageSink [("broker1", sample_org_spec)])).*1
  = [("broker1", sample_org_spec)].*1.
Proof.
  apply (create_message_sink_spec (E:=string) [("broker1", sample_org_spec)]
           sample_org_factory inr
           (mkMultiMessageSink [("broker1", sample_org_spec)])).
  - vm_decide.
  - vm_refl.
Defined.

Lemma create_message_sink_broker_error_witness :
  create_message_sink (Sink:=gmap string value)
    ([("broker1", sample_org_spec)] ++ ("broker2", ∅) :: [])
    sample_org_factory inr
  = inl "TypeError".
Proof.
  apply (create_message_sink_broker_error sample_org_factory).
  - apply Forall_cons. split; [exists sample_org_spec; vm_refl|apply Forall_nil_2].
  - vm_refl.
Defined.

Section OrgResources.

Context {E Org : Type}.
Implicit Types (add_resource : Org → gmap string value → E + Org).

Lemma add_resources_inr add_resource (specs : list (gmap string value)) :
  ∀ org org',
    add_resources add_resource org specs = inr org' ↔
    resources_added add_resource org specs org'.
Proof.
  induction specs as [|spec specs IH]; intros org org'; cbn.
  - split.
    + intros [= <-]. constructor.
    + by inversion 1.
  - split.
    + destruct (add_resource org spec) as [e|org1] eqn:Hadd; [done|].
      intros Hrest%IH. by econstructor.
    + inversion 1 as [|? ? org1 ? ? Hadd Hrest]; subst.
      rewrite Hadd. by apply IH.
Qed.

Lemma add_resources_first_error add_resource
    (built : list (gmap string value)) (bad : gmap string value) rest e :
  ∀ org org',
    resources_added add_resource org built org' →
    add_resource org' bad = inl e →
    add_resources add_resource org (built ++ bad :: rest) = inl e.
Proof.
  induction built as [|spec built IH]; intros org org' Hbuilt Hbad; cbn.
  - inversion Hbuilt; subst. by rewrite Hbad.
  - inversion Hbuilt as [|? ? org1 ? ? Hadd Hrest]; subst.
    rewrite Hadd. by eapply IH.
Qed.

(** [create_salesforce_org] returns an org exactly when [add_resource]
    succeeds on every resource in the order of the list, each call on the
    org the one before it left, starting from the new org, and it returns
    the org the last call left.  When [add_resource] fails on a
    resource, after succeeding on those before it, the error is raised,
    whatever resources come after it. *)
Theorem create_salesforce_org_resources
    (SalesforceOrg : string → string → string → string → Org) add_resource
    (consumer_key consumer_secret username password : string)
    (specs : list (gmap string value)) :
  (∀ org,
     create_salesforce_org SalesforceOrg add_resource
       consumer_key consumer_secret username password specs = inr org ↔
     resources_added add_resource
       (SalesforceOrg consumer_key consumer_secret username password) specs org) ∧
  (∀ built bad rest org e,
     specs = built ++ bad :: rest →
     resources_added add_resource
       (SalesforceOrg consumer_key consumer_secret username password) built org →
     add_resource org bad = inl e →
     create_salesforce_org SalesforceOrg add_resource
       consumer_key consumer_secret username password specs = inl e).
Proof.
  unfold create_salesforce_org. split.
  - intros org. apply add_resources_inr.
  - intros built bad rest org e -> Hbuilt Hbad.
    by eapply add_resources_first_error.
Qed.

End OrgResources.

(** The theorem at an org that records its resources: two resources are
    added in their order; a resource that is refused after the first one
    ends the creation with its error. *)
Lemma create_salesforce_org_resources_witness :
  resources_added sample_add_resource
    (sample_SalesforceOrg "key" "secret" "username" "password")
    [sample_resource "t1"; sample_resource "t2"]
    [sample_resource "t1"; sample_resource "t2"] ∧
  create_salesforce_org sample_SalesforceOrg sample_add_resource
    "key" "secret" "username" "password"
    [sample_resource "t1"; ∅; sample_resource "t2"]
  = inl "TypeError".
Proof.
  split.
  - apply (create_salesforce_org_resources sample_SalesforceOrg
             sample_add_resource "key" "secret" "username" "password"
             [sample_resource "t1"; sample_resource "t2"]).
    vm_refl.
  - apply (proj2 (create_salesforce_org_resources sample_SalesforceOrg
             sample_add_resource "key" "secret" "username" "password"
             [sample_resource "t1"; ∅; sample_resource "t2"])
             [sample_resource "t1"] ∅ [sample_resource "t2"]
             [sample_resource "t1"]).
    + reflexivity.
    + apply added_next with (org' := [sample_resource "t1"]); [vm_refl|].
      apply added_none.
    + vm_refl.
Defined.

(** * Further schemas *)

(** A nested field holds the data its schema loads from a mapping, or
    null when the field allows it. *)
Lemma nested_field_value (f : field) (s : Schema) (raw v : value) :
  deserialize f = deserialize (Nested s) →
  validators f = [] →
  deserialize_field f (Some raw) = Value v →
  (raw = VNone ∧ v = VNone ∧ allow_none f = true) ∨
  ∃ d d', raw = VDict d ∧ v = VDict d' ∧ load s d = Loaded d'.
Proof.
  intros Hclass Hvalid. unfold deserialize_field. rewrite Hclass, Hvalid.
  destruct raw as [|b|z|x|str|l|d]; cbn [deserialize Nested forallb]; try done.
  - destruct (allow_none f); [|done]. intros [= <-]. by left.
  - destruct (load s d) as [d'| |] eqn:Hload; [|done..].
    intros [= <-]. right. by exists d, d'.
Qed.

Lemma field_value_or_absent (f : field) (raw : option value) :
  (∀ e, deserialize_field f raw ≠ Error e) →
  match raw with
  | Some x => ∃ v, deserialize_field f (Some x) = Value v
  | None => deserialize_field f None = Absent
  end.
Proof.
  intros Hok. destruct raw as [x|].
  - destruct (deserialize_field f (Some x)) as [|v|e] eqn:Hd.
    + by apply deserialize_field_Absent in Hd.
    + by exists v.
    + by destruct (Hok e).
  - destruct (deserialize_field f None) as [|v|e] eqn:Hd; [done| |by destruct (Hok e)].
    by apply deserialize_field_Value in Hd as [? ?].
Qed.

Lemma route_load_identity (r r' : gmap string value) :
  load RouteSchema.schema r = Loaded r' → r' = r.
Proof.
  apply strict_load_identity; [apply route_names|apply route_attributes|].
  repeat constructor; try by apply string_field_identity.
  intros raw v Hv. by apply dict_of_strings_field in Hv as [-> _].
Qed.

(** What [RoutingRuleSchema] loads: the input has a non-empty string
    [condition] and a [route] that [RouteSchema] loads, and the data
    holds them under [condition_spec] and [route_spec], the keyword
    arguments of [create_rule], and holds nothing else. *)
Theorem routing_rule_schema (original_data data : gmap string value) :
  load RoutingRuleSchema.schema original_data = Loaded data →
  ∃ c r,
    original_data !! "condition" = Some (VStr c) ∧ c ≠ "" ∧
    original_data !! "route" = Some (VDict r) ∧
    load RouteSchema.schema r = Loaded r ∧
    data = <[ "route_spec" := VDict r ]> {[ "condition_spec" := VStr c ]}.
Proof.
  intros (-> & Hfields & _)%load_Loaded_inv.
  cbn [declared RoutingRuleSchema.schema StrictSchema] in Hfields.
  unfold RoutingRuleSchema.fields in Hfields.
  apply Forall_cons in Hfields as [Hcondition Hfields].
  apply Forall_cons in Hfields as [Hroute _].
  cbn [fst snd] in Hcondition, Hroute.
  pose proof Hcondition as [x Hx]%required_field_present; [|done].
  pose proof Hroute as [y Hy]%required_field_present; [|done].
  apply field_value_or_absent in Hcondition, Hroute.
  rewrite Hx in Hcondition. rewrite Hy in Hroute.
  destruct Hcondition as [v Hv]. destruct Hroute as [w Hw].
  pose proof Hv as Hsame. apply string_field_identity in Hsame as ->; [|done].
  assert (Hstring : ∀ e, deserialize_field
            (with_attribute "condition_spec"
               (with_validate (validate.Length (Some 1) None)
                  (with_required fields.String))) (Some x) ≠ Error e)
    by (intros e; by rewrite Hv).
  apply string_field_accepted in Hstring as (c & -> & Hvalid); [|done..].
  cbn in Hvalid. rewrite andb_true_r in Hvalid. apply Length_min in Hvalid.
  pose proof Hw as Hnested.
  apply (nested_field_value _ RouteSchema.schema) in Hnested
    as [(_ & _ & Hnone) | (r & r' & -> & -> & Hload)]; [done| |done..].
  pose proof (route_load_identity _ _ Hload) as ->.
  exists c, r. split_and!; [done| |done|done|].
  - intros ->. cbn in Hvalid. lia.
  - unfold unmarshal. cbn [declared RoutingRuleSchema.schema StrictSchema].
    unfold RoutingRuleSchema.fields. cbn [foldl]. unfold unmarshal_field.
    cbn [fst snd]. rewrite Hx, Hv. cbn [fst snd]. by rewrite Hy, Hw.
Qed.

Lemma routing_rule_schema_witness :
  ∃ c r,
    ({[ "condition" := VStr "source == 'orgA'";
        "route" := VDict (route_of "b1" "e1" "k.a") ]} : gmap string value)
      !! "condition" = Some (VStr c) ∧ c ≠ "" ∧
    ({[ "condition" := VStr "source == 'orgA'";
        "route" := VDict (route_of "b1" "e1" "k.a") ]} : gmap string value)
      !! "route" = Some (VDict r) ∧
    load RouteSchema.schema r = Loaded r ∧
    (<[ "route_spec" := VDict (route_of "b1" "e1" "k.a") ]>
       {[ "condition_spec" := VStr "source == 'orgA'" ]} : gmap string value)
    = <[ "route_spec" := VDict r ]> {[ "condition_spec" := VStr c ]}.
Proof.
  apply (routing_rule_schema
           {[ "condition" := VStr "source == 'orgA'";
              "route" := VDict (route_of "b1" "e1" "k.a") ]}).
  vm_refl.
Defined.

Lemma list_field_value (f inner : field) (raw v : value) :
  deserialize f = deserialize (List inner) →
  allow_none f = false →
  deserialize_field f (Some raw) = Value v →
  ∃ l l', raw = VList l ∧ v = VList l' ∧
          forallb (λ p, p (VList l')) (validators f) = true ∧
          Forall2 (λ x y, deserialize_field inner (Some x) = Value y) l l'.
Proof.
  intros Hclass Hnone Hvalue. unfold deserialize_field in Hvalue.
  rewrite Hclass, Hnone in Hvalue.
  destruct raw as [|b|z|x|str|l|d]; cbn [deserialize List] in Hvalue; try done.
  destruct (mapM (fields.entry inner) l) as [l'|] eqn:Hitems; [|done].
  cbn [fmap option_fmap option_map] in Hvalue.
  destruct (forallb _ _) eqn:Hvalid; [|done]. injection Hvalue as <-.
  exists l, l'. split; [done|]. split; [done|]. split; [done|].
  apply mapM_Some in Hitems. eapply Forall2_impl; [exact Hitems|].
  intros x y Hentry. unfold fields.entry in Hentry.
  destruct (deserialize_field inner (Some x)) as [|v'|e]; try done.
  by injection Hentry as ->.
Qed.

(** What [MessageRouterSchema] loads: [default_route] is given, as null
    or as a route that [RouteSchema] loads, and the data holds it under
    [default_route_spec]; [rules] may be left out, and then the data has
    no [rule_specs], or is a list of rules that [RoutingRuleSchema] loads
    one by one, held under [rule_specs]; the data has no other key. *)
Theorem message_router_schema (original_data data : gmap string value) :
  load MessageRouterSchema.schema original_data = Loaded data →
  (∃ x, original_data !! "default_route" = Some x ∧
        data !! "default_route_spec" = Some x ∧
        (x = VNone ∨ ∃ r, x = VDict r ∧ load RouteSchema.schema r = Loaded r)) ∧
  match original_data !! "rules" with
  | None => data !! "rule_specs" = None
  | Some x =>
    ∃ l l', x = VList l ∧ data !! "rule_specs" = Some (VList l') ∧
            Forall2 (λ raw rule,
                       ∃ d d', raw = VDict d ∧ rule = VDict d' ∧
                               load RoutingRuleSchema.schema d = Loaded d')
                    l l'
  end ∧
  dom data ⊆ {[ "default_route_spec"; "rule_specs" ]}.
Proof.
  intros (-> & Hfields & _)%load_Loaded_inv.
  cbn [declared MessageRouterSchema.schema StrictSchema] in Hfields.
  unfold MessageRouterSchema.fields in Hfields.
  apply Forall_cons in Hfields as [Hdefault Hfields].
  apply Forall_cons in Hfields as [Hrules _].
  cbn [fst snd] in Hdefault, Hrules.
  pose proof Hdefault as [x Hx]%required_field_present; [|done].
  apply field_value_or_absent in Hdefault, Hrules.
  rewrite Hx in Hdefault. destruct Hdefault as [v Hv].
  unfold unmarshal. cbn [declared MessageRouterSchema.schema StrictSchema].
  unfold MessageRouterSchema.fields. cbn [foldl]. unfold unmarshal_field.
  cbn [fst snd]. rewrite Hx, Hv. cbn [fst snd attribute with_attribute default].
  assert (Hroute : v = x ∧
            (x = VNone ∨ ∃ r, x = VDict r ∧ load RouteSchema.schema r = Loaded r)).
  { apply (nested_field_value _ RouteSchema.schema) in Hv
      as [(-> & -> & _) | (r & r' & -> & -> & Hload)]; [by split; [|left]| |done..].
    pose proof (route_load_identity _ _ Hload) as ->.
    split; [done|]. right. by exists r. }
  destruct Hroute as [-> Hroute].
  destruct (original_data !! "rules") as [y|] eqn:Hy.
  - destruct Hrules as [w Hw]. rewrite Hw. cbn [fst].
    apply (list_field_value _ (Nested RoutingRuleSchema.schema)) in Hw
      as (l & l' & -> & -> & _ & Hitems); [|done..].
    split_and!.
    + exists x. split; [done|]. split; [|done].
      rewrite lookup_insert_ne; [|done]. by rewrite lookup_insert_eq.
    + exists l, l'. split; [done|]. split; [by rewrite lookup_insert_eq|].
      eapply Forall2_impl; [exact Hitems|]. intros raw rule Hrule.
      apply (nested_field_value _ RoutingRuleSchema.schema) in Hrule
        as [(_ & _ & Hnone) | (d & d' & -> & -> & Hload)]; [done| |done..].
      by exists d, d'.
    + rewrite !dom_insert_L, dom_empty_L. set_solver.
  - rewrite Hrules. cbn [fst]. split_and!.
    + exists x. split; [done|]. split; [by rewrite lookup_insert_eq|done].
    + rewrite lookup_insert_ne; [|done]. apply lookup_empty.
    + rewrite dom_insert_L, dom_empty_L. set_solver.
Qed.

(** The theorem at a router configuration with a null default route and
    without rules: it is loaded, into data without [rule_specs]. *)
Lemma message_router_schema_witness :
  ({[ "default_route_spec" := VNone ]} : gmap string value) !! "rule_specs" = None ∧
  dom ({[ "default_route_spec" := VNone ]} : gmap string value)
    ⊆ {[ "default_route_spec"; "rule_specs" ]}.
Proof.
  destruct (message_router_schema {[ "default_route" := VNone ]}
                                  {[ "default_route_spec" := VNone ]})
    as (_ & Hrules & Hkeys); [vm_refl|].
  split; [exact Hrules|exact Hkeys].
Defined.

(** ** Exchange declarations *)

(** An exchange declaration is loaded only with a non-empty string
    [exchange_name] and a [type_name] that is one of [fanout], [direct],
    [topic] and [headers]; [arguments], when given, is null or a
    mapping. *)
Theorem amqp_exchange_schema (py_bool : value → option bool)
    (original_data data : gmap string value) :
  load (AmqpExchangeSchema.schema py_bool) original_data = Loaded data →
  (∃ s, original_data !! "exchange_name" = Some (VStr s) ∧ s ≠ "") ∧
  (∃ t, original_data !! "type_name" = Some (VStr t) ∧
        t ∈ ["fanout"; "direct"; "topic"; "headers"]) ∧
  (∀ raw, original_data !! "arguments" = Some raw →
          raw = VNone ∨ ∃ d, raw = VDict d).
Proof.
  intros (_ & Hfields & _)%load_Loaded_inv.
  cbn [declared AmqpExchangeSchema.schema StrictSchema] in Hfields.
  unfold AmqpExchangeSchema.fields in Hfields.
  apply Forall_cons in Hfields as [Hname Hfields].
  apply Forall_cons in Hfields as [Htype Hfields].
  do 4 apply Forall_cons in Hfields as [_ Hfields].
  apply Forall_cons in Hfields as [Harguments _].
  cbn [fst snd] in Hname, Htype, Harguments. split_and!.
  - pose proof Hname as [v Hv]%required_field_present; [|done].
    rewrite Hv in Hname |- *.
    apply string_field_accepted in Hname as (s & -> & Hvalid); [|done..].
    exists s. split; [done|]. cbn in Hvalid. rewrite andb_true_r in Hvalid.
    apply Length_min in Hvalid. intros ->. cbn in Hvalid. lia.
  - pose proof Htype as [v Hv]%required_field_present; [|done].
    rewrite Hv in Htype |- *.
    apply string_field_accepted in Htype as (t & -> & Hvalid); [|done..].
    exists t. split; [done|]. cbn in Hvalid. rewrite andb_true_r in Hvalid.
    by apply bool_decide_eq_true in Hvalid.
  - intros raw Hraw. rewrite Hraw in Harguments.
    destruct raw as [|b|z|x|s|l|d]; [by left| | | | | |by right; exists d];
      by destruct (Harguments Invalid).
Qed.

Lemma amqp_exchange_schema_witness :
  ∃ t, ({[ "exchange_name" := VStr "e1"; "type_name" := VStr "topic";
           "durable" := VBool true ]} : gmap string value) !! "type_name"
       = Some (VStr t) ∧
       t ∈ ["fanout"; "direct"; "topic"; "headers"].
Proof.
  destruct (amqp_exchange_schema bool_of_bool
              {[ "exchange_name" := VStr "e1"; "type_name" := VStr "topic";
                 "durable" := VBool true ]}
              {[ "exchange_name" := VStr "e1"; "type_name" := VStr "topic";
                 "durable" := VBool true ]})
    as (_ & Htype & _); [vm_refl|exact Htype].
Defined.

(** ** Broker declarations *)

Lemma int_field_accepted (py_int : value → option Z) (lo hi : Z) (raw : value) :
  (∀ e, deserialize_field
          (with_validate (Range_int lo hi) (with_allow_none (Int py_int)))
          (Some raw) ≠ Error e) →
  raw = VNone ∨ ∃ z, py_int raw = Some z ∧ (lo ≤ z ≤ hi)%Z.
Proof.
  intros Hok.
  destruct raw as [|b|n|x|s|l|d]; [by left|..]; right;
    unfold deserialize_field in Hok;
    cbn [allow_none deserialize validators with_validate with_allow_none Int app]
      in Hok;
    (destruct (py_int _) as [z|]; [|by destruct (Hok Invalid)]);
    exists z; (split; [done|]); cbn in Hok;
    (destruct (z <? lo)%Z eqn:Hlo; [by destruct (Hok Failed_validation)|]);
    (destruct (hi <? z)%Z eqn:Hhi; [by destruct (Hok Failed_validation)|]);
    lia.
Qed.

(** A broker is loaded only with a non-empty string [host], with a [port]
    that, when given, is null or converts to an integer from 1 to 65535,
    and with a non-empty list of [exchanges], each of which
    [AmqpExchangeSchema] loads. *)
Theorem amqp_broker_schema (py_int : value → option Z)
    (py_bool : value → option bool) (original_data data : gmap string value) :
  load (AmqpBrokerSchema.schema py_int py_bool) original_data = Loaded data →
  (∃ h, original_data !! "host" = Some (VStr h) ∧ h ≠ "") ∧
  (∀ raw, original_data !! "port" = Some raw →
          raw = VNone ∨ ∃ z, py_int raw = Some z ∧ (1 ≤ z ≤ 65535)%Z) ∧
  (∃ l, original_data !! "exchanges" = Some (VList l) ∧ l ≠ [] ∧
        Forall (λ x, ∃ d d', x = VDict d ∧
                    load (AmqpExchangeSchema.schema py_bool) d = Loaded d') l).
Proof.
  intros (_ & Hfields & _)%load_Loaded_inv.
  cbn [declared AmqpBrokerSchema.schema StrictSchema] in Hfields.
  unfold AmqpBrokerSchema.fields in Hfields.
  apply Forall_cons in Hfields as [Hhost Hfields].
  apply Forall_cons in Hfields as [Hport Hfields].
  do 7 apply Forall_cons in Hfields as [_ Hfields].
  apply Forall_cons in Hfields as [Hexchanges _].
  cbn [fst snd] in Hhost, Hport, Hexchanges. split_and!.
  - pose proof Hhost as [v Hv]%required_field_present; [|done].
    rewrite Hv in Hhost |- *.
    apply string_field_accepted in Hhost as (h & -> & Hvalid); [|done..].
    exists h. split; [done|]. cbn in Hvalid. rewrite andb_true_r in Hvalid.
    apply Length_min in Hvalid. intros ->. cbn in Hvalid. lia.
  - intros raw Hraw. rewrite Hraw in Hport.
    by apply int_field_accepted in Hport.
  - pose proof Hexchanges as [v Hv]%required_field_present; [|done].
    apply field_value_or_absent in Hexchanges. rewrite Hv in Hexchanges |- *.
    destruct Hexchanges as [w Hw].
    apply (list_field_value _ (Nested (AmqpExchangeSchema.schema py_bool))) in Hw
      as (l & l' & -> & -> & Hvalid & Hitems); [|done..].
    exists l. split; [done|]. split.
    + intros ->. apply Forall2_nil_inv_l in Hitems as ->. done.
    + clear -Hitems.
      induction Hitems as [|x y l l' Hy _ IH]; constructor; [|done].
      apply (nested_field_value _ (AmqpExchangeSchema.schema py_bool)) in Hy
        as [(_ & _ & Hnone) | (d & d' & -> & _ & Hload)]; [done| |done..].
      by exists d, d'.
Qed.

Lemma amqp_broker_schema_witness :
  (∃ h, ({[ "host" := VStr "rabbit"; "port" := VInt 5672;
            "exchanges" := VList [VDict {[ "exchange_name" := VStr "e1";
                                           "type_name" := VStr "topic" ]}] ]}
           : gmap string value) !! "host" = Some (VStr h) ∧ h ≠ "") ∧
  (VInt 5672 = VNone ∨
   ∃ z, int_of_int (VInt 5672) = Some z ∧ (1 ≤ z ≤ 65535)%Z).
Proof.
  destruct (amqp_broker_schema int_of_int bool_of_bool
              {[ "host" := VStr "rabbit"; "port" := VInt 5672;
                 "exchanges" := VList [VDict {[ "exchange_name" := VStr "e1";
                                                "type_name" := VStr "topic" ]}] ]}
              {[ "host" := VStr "rabbit"; "port" := VInt 5672;
                 "exchange_specs" := VList [VDict {[ "exchange_name" := VStr "e1";
                                                     "type_name" := VStr "topic" ]}] ]})
    as (Hhost & Hport & _); [vm_refl|].
  split; [exact Hhost|]. apply Hport. vm_refl.
Defined.

Lemma dict_field_value (f inner : field) (raw v : value) :
  deserialize f = deserialize (fields.Dict (Some inner)) →
  allow_none f = false →
  deserialize_field f (Some raw) = Value v →
  ∃ d, raw = VDict d ∧ v = VDict (omap (fields.entry inner) d) ∧
       forallb (λ p, p v) (validators f) = true ∧
       ∀ k x, d !! k = Some x → ∃ y, deserialize_field inner (Some x) = Value y.
Proof.
  intros Hclass Hnone Hvalue. unfold deserialize_field in Hvalue.
  rewrite Hclass, Hnone in Hvalue.
  destruct raw as [|b|z|x|str|l|d]; cbn [deserialize fields.Dict] in Hvalue;
    try done.
  case_bool_decide as Hall; [|done].
  destruct (forallb _ _) eqn:Hvalid; [|done]. injection Hvalue as <-.
  exists d. split; [done|]. split; [done|]. split; [done|].
  intros k x Hx. destruct (Hall k x Hx) as [y Hy].
  unfold fields.entry in Hy.
  destruct (deserialize_field inner (Some x)) as [|v'|e]; try done. by exists v'.
Qed.

(** The sink configuration is loaded only with at least one broker, each
    of which [AmqpBrokerSchema] loads. *)
Theorem message_sink_schema (py_int : value → option Z)
    (py_bool : value → option bool) (original_data data : gmap string value) :
  load (MessageSinkSchema.schema py_int py_bool) original_data = Loaded data →
  ∃ brokers,
    original_data !! "brokers" = Some (VDict brokers) ∧ brokers ≠ ∅ ∧
    ∀ name x, brokers !! name = Some x →
              ∃ d d', x = VDict d ∧
                      load (AmqpBrokerSchema.schema py_int py_bool) d = Loaded d'.
Proof.
  intros (_ & Hfields & _)%load_Loaded_inv.
  cbn [declared MessageSinkSchema.schema StrictSchema] in Hfields.
  unfold MessageSinkSchema.fields in Hfields.
  apply Forall_cons in Hfields as [Hbrokers _]. cbn [fst snd] in Hbrokers.
  pose proof Hbrokers as [v Hv]%required_field_present; [|done].
  apply field_value_or_absent in Hbrokers. rewrite Hv in Hbrokers |- *.
  destruct Hbrokers as [w Hw].
  apply (dict_field_value _ (Nested (AmqpBrokerSchema.schema py_int py_bool))) in Hw
    as (brokers & -> & -> & Hvalid & Hitems); [|done..].
  exists brokers. split; [done|]. split.
  - intros ->. cbn in Hvalid. by rewrite omap_empty in Hvalid.
  - intros name x Hx. destruct (Hitems name x Hx) as [y Hy].
    apply (nested_field_value _ (AmqpBrokerSchema.schema py_int py_bool)) in Hy
      as [(_ & _ & Hnone) | (d & d' & -> & _ & Hload)]; [done| |done..].
    by exists d, d'.
Qed.

Lemma message_sink_schema_witness :
  ∃ brokers,
    ({[ "brokers" :=
          VDict {[ "b1" :=
            VDict {[ "host" := VStr "rabbit";
                     "exchanges" :=
                       VList [VDict {[ "exchange_name" := VStr "e1";
                                       "type_name" := VStr "topic" ]}] ]} ]} ]}
       : gmap string value) !! "brokers" = Some (VDict brokers) ∧ brokers ≠ ∅.
Proof.
  destruct (message_sink_schema int_of_int bool_of_bool
              {[ "brokers" :=
                   VDict {[ "b1" :=
                     VDict {[ "host" := VStr "rabbit";
                              "exchanges" :=
                                VList [VDict {[ "exchange_name" := VStr "e1";
                                                "type_name" := VStr "topic" ]}] ]} ]} ]}
              {[ "broker_specs" :=
                   VDict {[ "b1" :=
                     VDict {[ "host" := VStr "rabbit";
                              "exchange_specs" :=
                                VList [VDict {[ "exchange_name" := VStr "e1";
                                                "type_name" := VStr "topic" ]}] ]} ]} ]})
    as (brokers & Hbrokers & Hne & _); [vm_refl|].
  by exists brokers.
Defined.
